(** * Dispatch engine of the laundry platform: facility, package and route logic

    A shallow embedding of the PL/pgSQL functions, triggers and constraints
    that assign orders to facilities, group them into driver packages and
    sequence the stops of a package, together with the properties stated
    about them.

    Conventions of the embedding.

    - A table is the list of its rows in scan order.  [ORDER BY k LIMIT 1]
      is the first row of the stable sort of the scan, that is, the first
      row whose key no other row is strictly below; [LIMIT n] without
      [ORDER BY] keeps the first [n] rows of the scan.
    - A nullable column is an [option]; a comparison with NULL is not true,
      so a [WHERE] clause drops the row ([sql_eq], [sql_neq], [sql_le]).
    - [uuid] values are numbers and [gen_random_uuid()] hands out the next
      unused one ([next_uuid]).  [float] is idealised by the real numbers.
      A [timestamptz] is the pair of its date and its time of day.
    - A PL/pgSQL function that writes is a state and exception monad over
      the database; [Raise] aborts the statement, and a loop that has not
      finished when its fuel is used up yields [OutOfFuel].
    - Where an unqualified name could be a column or a PL/pgSQL variable of
      the same name ([package_id]), the column of the scanned table is
      compared with the value of the variable.
    - One session at a time: no row is locked by another session, so
      [FOR UPDATE SKIP LOCKED] skips nothing.  Foreign keys, row level
      security and the workflow flags of an order are outside the model. *)

From Stdlib Require Import List ZArith NArith Bool Arith Lia String Reals Lra.
From Stdlib Require Import RelationClasses.
Import ListNotations.
Local Open Scope Z_scope.

(** ** SQL helpers *)

Module Sql.

Definition is_null {A : Type} (a : option A) : bool :=
  match a with None => true | Some _ => false end.

Definition is_not_null {A : Type} (a : option A) : bool := negb (is_null a).

(** [a = b] is true. *)
Definition sql_eq {A : Type} (eqb : A -> A -> bool) (a b : option A) : bool :=
  match a, b with
  | Some x, Some y => eqb x y
  | _, _ => false
  end.

(** [a != b] is true. *)
Definition sql_neq {A : Type} (eqb : A -> A -> bool) (a b : option A) : bool :=
  match a, b with
  | Some x, Some y => negb (eqb x y)
  | _, _ => false
  end.

(** [a <= b] is true. *)
Definition sql_le (a b : option Z) : bool :=
  match a, b with
  | Some x, Some y => x <=? y
  | _, _ => false
  end.

Definition coalesce {A : Type} (a : option A) (d : A) : A :=
  match a with Some x => x | None => d end.

(** [ORDER BY ... LIMIT 1]: [lt x y] says that the key of [x] sorts strictly
    before the key of [y]. *)
Fixpoint first_min {A : Type} (lt : A -> A -> bool) (l : list A) : option A :=
  match l with
  | [] => None
  | x :: t =>
      match first_min lt t with
      | None => Some x
      | Some y => if lt y x then Some y else Some x
      end
  end.

(** [SELECT c INTO v FROM ... ] keeps the first row, and NULL without one. *)
Definition select_into {A B : Type} (c : A -> option B) (rows : list A) : option B :=
  match rows with
  | [] => None
  | r :: _ => c r
  end.

Definition Rltb (x y : R) : bool := if Rlt_dec x y then true else false.

(** Keys of type [float] that may be NULL; [ASC] puts NULL last. *)
Definition key_lt (a b : option R) : bool :=
  match a, b with
  | Some x, Some y => Rltb x y
  | Some _, None => true
  | None, _ => false
  end.

End Sql.
Import Sql.

(** ** Schema *)

Definition uuid := N.
Definition date := Z.
Definition time := Z.

Record timestamptz := { ts_date : date; ts_time : time }.

Definition date_of (t : option timestamptz) : option date := option_map ts_date t.
Definition time_of (t : option timestamptz) : option time := option_map ts_time t.

Record facility := {
  f_id : uuid;
  f_status : bool;
  f_latitude : R;
  f_longitude : R;
  f_opening_hour : option time;
  f_close_hour : option time
}.

Record driver := { d_id : uuid; d_status : bool }.

Record facility_driver := {
  fd_facility_id : option uuid;
  fd_driver_id : option uuid
}.

Record order := {
  o_id : uuid;
  o_status : option string;
  o_facility_id : option uuid;
  o_assigned_driver_id : option uuid;
  o_estimated_delivery : option timestamptz;
  o_latitude : option R;
  o_longitude : option R
}.

Inductive package_status :=
| pkg_pending | pkg_assigned | pkg_in_progress | pkg_completed | pkg_cancelled.

Record driver_package := {
  dp_id : uuid;
  dp_driver_id : option uuid;
  dp_facility_id : option uuid;
  dp_package_date : date;
  dp_start_time : time;
  dp_end_time : time;
  dp_status : package_status;
  dp_created_at : Z
}.

Inductive stop_status := stop_pending | stop_picked_up | stop_delivered | stop_failed.

Record package_order := {
  po_id : uuid;
  po_package_id : option uuid;
  po_order_id : option uuid;
  po_sequence_number : Z;
  po_estimated_arrival : option time;
  po_status : stop_status
}.

(** What a statement can raise. *)
Inductive exn :=
| OrderAlreadyAssigned (order_id : option uuid)
    (* 'Order % is already assigned to a package' *)
| DriverMismatch (order_id : option uuid)
    (* 'Order % is already assigned to a different driver' *)
| DriverDoubleBooked (order_id : uuid) (driver_id : option uuid)
    (* 'Order % cannot be assigned to driver % as they already have orders for this date' *)
| InactiveDriver
    (* 'Orders can only be assigned to active drivers' *)
| NoFacilityAvailable
    (* 'No facility available for the specified delivery time' *)
| unique_order_assignment            (* UNIQUE (order_id) *)
| package_orders_package_id_order_id_key  (* UNIQUE (package_id, order_id) *)
| not_null_violation (column : string).

(** A [jsonb] value of a log entry. *)
Inductive jsonb :=
| j_uuid (v : option uuid)
| j_date (v : date)
| j_error (v : exn).

Record package_log := {
  pl_package_id : option uuid;
  pl_event_type : string;
  pl_details : list (string * jsonb)
}.

Record database := {
  facilities : list facility;
  drivers : list driver;
  facility_drivers : list facility_driver;
  orders : list order;
  driver_packages : list driver_package;
  package_orders : list package_order;
  package_logs : list package_log;
  next_uuid : uuid;        (* the next result of gen_random_uuid() *)
  now : Z;                 (* now(), the start of the transaction *)
  random_calls : nat       (* how often random() has been called *)
}.

Definition set_orders (db : database) (l : list order) : database :=
  {| facilities := facilities db; drivers := drivers db;
     facility_drivers := facility_drivers db; orders := l;
     driver_packages := driver_packages db; package_orders := package_orders db;
     package_logs := package_logs db; next_uuid := next_uuid db; now := now db;
     random_calls := random_calls db |}.

Definition set_driver_packages (db : database) (l : list driver_package) : database :=
  {| facilities := facilities db; drivers := drivers db;
     facility_drivers := facility_drivers db; orders := orders db;
     driver_packages := l; package_orders := package_orders db;
     package_logs := package_logs db; next_uuid := next_uuid db; now := now db;
     random_calls := random_calls db |}.

Definition set_package_orders (db : database) (l : list package_order) : database :=
  {| facilities := facilities db; drivers := drivers db;
     facility_drivers := facility_drivers db; orders := orders db;
     driver_packages := driver_packages db; package_orders := l;
     package_logs := package_logs db; next_uuid := next_uuid db; now := now db;
     random_calls := random_calls db |}.

Definition set_package_logs (db : database) (l : list package_log) : database :=
  {| facilities := facilities db; drivers := drivers db;
     facility_drivers := facility_drivers db; orders := orders db;
     driver_packages := driver_packages db; package_orders := package_orders db;
     package_logs := l; next_uuid := next_uuid db; now := now db;
     random_calls := random_calls db |}.

Definition set_next_uuid (db : database) (n : uuid) : database :=
  {| facilities := facilities db; drivers := drivers db;
     facility_drivers := facility_drivers db; orders := orders db;
     driver_packages := driver_packages db; package_orders := package_orders db;
     package_logs := package_logs db; next_uuid := n; now := now db;
     random_calls := random_calls db |}.

Definition set_random_calls (db : database) (n : nat) : database :=
  {| facilities := facilities db; drivers := drivers db;
     facility_drivers := facility_drivers db; orders := orders db;
     driver_packages := driver_packages db; package_orders := package_orders db;
     package_logs := package_logs db; next_uuid := next_uuid db; now := now db;
     random_calls := n |}.

Definition set_assigned_driver (o : order) (d : option uuid) : order :=
  {| o_id := o_id o; o_status := o_status o; o_facility_id := o_facility_id o;
     o_assigned_driver_id := d; o_estimated_delivery := o_estimated_delivery o;
     o_latitude := o_latitude o; o_longitude := o_longitude o |}.

Definition set_facility (o : order) (f : option uuid) : order :=
  {| o_id := o_id o; o_status := o_status o; o_facility_id := f;
     o_assigned_driver_id := o_assigned_driver_id o;
     o_estimated_delivery := o_estimated_delivery o;
     o_latitude := o_latitude o; o_longitude := o_longitude o |}.

Definition set_sequence_number (po : package_order) (n : Z) : package_order :=
  {| po_id := po_id po; po_package_id := po_package_id po;
     po_order_id := po_order_id po; po_sequence_number := n;
     po_estimated_arrival := po_estimated_arrival po; po_status := po_status po |}.

(** ** Statements: state, exceptions and fuel *)

Inductive outcome (A : Type) :=
| Ok (a : A)
| Raise (e : exn)
| OutOfFuel.
Arguments Ok {A} a.
Arguments Raise {A} e.
Arguments OutOfFuel {A}.

Definition M (A : Type) := database -> outcome (A * database).

Definition ret {A : Type} (a : A) : M A := fun db => Ok (a, db).

Definition bind {A B : Type} (m : M A) (k : A -> M B) : M B :=
  fun db =>
    match m db with
    | Ok (a, db') => k a db'
    | Raise e => Raise e
    | OutOfFuel => OutOfFuel
    end.

Definition raise {A : Type} (e : exn) : M A := fun _ => Raise e.

Definition get : M database := fun db => Ok (db, db).

Definition modify (f : database -> database) : M unit := fun db => Ok (tt, f db).

(** [BEGIN body EXCEPTION WHEN OTHERS THEN handler END]: the writes of the
    body are rolled back before the handler runs (the whole state of the
    model is restored, its counters included). *)
Definition try_catch {A : Type} (body : M A) (handler : exn -> M A) : M A :=
  fun db =>
    match body db with
    | Ok r => Ok r
    | Raise e => handler e db
    | OutOfFuel => OutOfFuel
    end.

Declare Scope sql_scope.
Delimit Scope sql_scope with sql.
Notation "x <- m ;; k" := (bind m (fun x => k))
  (at level 61, m at next level, right associativity) : sql_scope.
Notation "m ;; k" := (bind m (fun _ => k))
  (at level 61, right associativity) : sql_scope.
Local Open Scope sql_scope.

(** [FOR x IN l LOOP body END LOOP]. *)
Fixpoint for_each {A : Type} (l : list A) (body : A -> M unit) : M unit :=
  match l with
  | [] => ret tt
  | x :: t => body x ;; for_each t body
  end.

(** [INSERT INTO package_logs (package_id, event_type, details)]. *)
Definition insert_package_logs (package_id : option uuid) (event_type : string)
    (details : list (string * jsonb)) : M unit :=
  modify (fun db =>
    set_package_logs db
      (package_logs db ++
       [{| pl_package_id := package_id; pl_event_type := event_type;
           pl_details := details |}])).

(** ** 20250324060912_frosty_union.sql: facility assignment *)

Module frosty_union.

Definition radians (x : R) : R := (x * PI / 180)%R.

Definition calculate_distance (lat1 lon1 lat2 lon2 : R) : R :=
  let R_ := 6371%R in
  let lat1 := radians lat1 in
  let lon1 := radians lon1 in
  let lat2 := radians lat2 in
  let lon2 := radians lon2 in
  let dlat := (lat2 - lat1)%R in
  let dlon := (lon2 - lon1)%R in
  let a := (sin (dlat / 2) ^ 2 + cos lat1 * cos lat2 * sin (dlon / 2) ^ 2)%R in
  let c := (2 * asin (sqrt a))%R in
  let d := (R_ * c)%R in
  d.

(** The rows of [facilities] that pass the [WHERE] clause of
    [find_nearest_facility]. *)
Definition open_facilities (db : database) (delivery_time_only : option time)
    : list facility :=
  filter (fun f =>
            f_status f
            && sql_le (f_opening_hour f) delivery_time_only
            && sql_le delivery_time_only (f_close_hour f))
         (facilities db).

Definition find_nearest_facility (db : database) (order_lat order_lon : R)
    (delivery_time : option timestamptz) : option uuid :=
  let delivery_time_only := time_of delivery_time in
  let nearest :=
    first_min
      (fun f g =>
         Rltb (calculate_distance order_lat order_lon (f_latitude f) (f_longitude f))
              (calculate_distance order_lat order_lon (f_latitude g) (f_longitude g)))
      (open_facilities db delivery_time_only) in
  option_map f_id nearest.

(** The trigger function of [assign_facility_trigger].  [shipping_lat] and
    [shipping_lon] are declared and never assigned. *)
Definition assign_nearest_facility (db : database) (NEW : order) : order :=
  let shipping_lat : option R := None in
  let shipping_lon : option R := None in
  match shipping_lat, shipping_lon with
  | Some lat, Some lon =>
      set_facility NEW (find_nearest_facility db lat lon (o_estimated_delivery NEW))
  | _, _ =>
      set_facility NEW
        (select_into (fun f => Some (f_id f)) (filter f_status (facilities db)))
  end.

End frosty_union.

(** ** The later definition of [assign_nearest_facility] (schema update) *)

Module schema_update.

(** [point(x1, y1) <-> point(x2, y2)], NULL when a coordinate is NULL. *)
Definition point_distance (x1 y1 : R) (x2 y2 : option R) : option R :=
  match x2, y2 with
  | Some x2, Some y2 => Some (sqrt ((x1 - x2) ^ 2 + (y1 - y2) ^ 2))%R
  | _, _ => None
  end.

Definition assign_nearest_facility (NEW : order) : M order :=
  db <- get ;;
  let nearest_facility_id :=
    option_map f_id
      (first_min
         (fun f g =>
            key_lt (point_distance (f_longitude f) (f_latitude f)
                                   (o_longitude NEW) (o_latitude NEW))
                   (point_distance (f_longitude g) (f_latitude g)
                                   (o_longitude NEW) (o_latitude NEW)))
         (frosty_union.open_facilities db (time_of (o_estimated_delivery NEW)))) in
  if is_null nearest_facility_id then raise NoFacilityAvailable
  else ret (set_facility NEW nearest_facility_id).

End schema_update.

(** ** 20250324060613_white_bar.sql: only active drivers *)

Module white_bar.

Definition validate_driver_status (NEW : order) : M order :=
  db <- get ;;
  if is_not_null (o_assigned_driver_id NEW) then
    if negb (existsb (fun d => sql_eq N.eqb (Some (d_id d)) (o_assigned_driver_id NEW)
                               && d_status d)
                     (drivers db))
    then raise InactiveDriver
    else ret NEW
  else ret NEW.

End white_bar.

(** ** 20250325021504_broad_pine.sql: the guards on assignments *)

Module broad_pine.

Definition prevent_duplicate_driver_assignment (NEW : order) : M order :=
  db <- get ;;
  if is_not_null (o_assigned_driver_id NEW)
     && existsb (fun o =>
                   negb (o_id o =? o_id NEW)%N
                   && sql_eq N.eqb (o_assigned_driver_id o) (o_assigned_driver_id NEW)
                   && sql_eq Z.eqb (date_of (o_estimated_delivery o))
                                   (date_of (o_estimated_delivery NEW)))
                (orders db)
  then raise (DriverDoubleBooked (o_id NEW) (o_assigned_driver_id NEW))
  else ret NEW.

(** The [BEFORE UPDATE] row triggers of [orders] that fire when
    [assigned_driver_id] is in the [SET] list, in the order of their names:
    [enforce_active_driver], [enforce_unique_driver_assignment]. *)
Definition orders_before_update_of_assigned_driver_id (NEW : order) : M order :=
  NEW <- white_bar.validate_driver_status NEW ;;
  prevent_duplicate_driver_assignment NEW.

(** [UPDATE orders SET assigned_driver_id = v WHERE p], row by row; [done]
    are the rows already visited and [todo] the rows still to visit. *)
Fixpoint update_orders_from (p : order -> bool) (v : option uuid)
    (done todo : list order) : M unit :=
  match todo with
  | [] => ret tt
  | o :: rest =>
      if p o then
        NEW <- orders_before_update_of_assigned_driver_id (set_assigned_driver o v) ;;
        modify (fun db => set_orders db (done ++ NEW :: rest)) ;;
        update_orders_from p v (done ++ [NEW]) rest
      else update_orders_from p v (done ++ [o]) rest
  end.

Definition update_orders_assigned_driver_id (p : order -> bool) (v : option uuid)
    : M unit :=
  db <- get ;;
  update_orders_from p v [] (orders db).

(** [package_id != COALESCE(NEW.package_id, -1)] *)
Definition other_package (po NEW : package_order) : bool :=
  match po_package_id po with
  | Some p => negb (Z.of_N p =? coalesce (option_map Z.of_N (po_package_id NEW)) (-1))
  | None => false
  end.

(** The trigger function of [enforce_order_assignment],
    [BEFORE INSERT OR UPDATE ON package_orders]. *)
Definition validate_order_assignment (NEW : package_order) : M package_order :=
  db <- get ;;
  if existsb (fun po => sql_eq N.eqb (po_order_id po) (po_order_id NEW)
                        && other_package po NEW)
             (package_orders db)
  then raise (OrderAlreadyAssigned (po_order_id NEW))
  else
    if existsb (fun o =>
                  existsb (fun dp =>
                             sql_eq N.eqb (Some (dp_id dp)) (po_package_id NEW)
                             && sql_eq N.eqb (Some (o_id o)) (po_order_id NEW)
                             && is_not_null (o_assigned_driver_id o)
                             && sql_neq N.eqb (o_assigned_driver_id o) (dp_driver_id dp))
                          (driver_packages db))
               (orders db)
    then raise (DriverMismatch (po_order_id NEW))
    else
      update_orders_assigned_driver_id
        (fun o => sql_eq N.eqb (Some (o_id o)) (po_order_id NEW))
        (select_into dp_driver_id
           (filter (fun dp => sql_eq N.eqb (Some (dp_id dp)) (po_package_id NEW))
                   (driver_packages db))) ;;
      ret NEW.

(** The unique constraints of [package_orders], checked against the other
    rows of the table. *)
Definition check_unique (others : list package_order) (NEW : package_order) : M unit :=
  if existsb (fun po => sql_eq N.eqb (po_package_id po) (po_package_id NEW)
                        && sql_eq N.eqb (po_order_id po) (po_order_id NEW))
             others
  then raise package_orders_package_id_order_id_key
  else
    if existsb (fun po => sql_eq N.eqb (po_order_id po) (po_order_id NEW)) others
    then raise unique_order_assignment
    else ret tt.

(** [INSERT INTO package_orders (package_id, order_id, sequence_number,
    estimated_arrival, status) VALUES (...)]. *)
Definition insert_package_orders (package_id order_id : option uuid)
    (sequence_number : Z) (estimated_arrival : option time) (status : stop_status)
    : M unit :=
  db <- get ;;
  modify (fun db => set_next_uuid db (N.succ (next_uuid db))) ;;
  NEW <- validate_order_assignment
           {| po_id := next_uuid db; po_package_id := package_id;
              po_order_id := order_id; po_sequence_number := sequence_number;
              po_estimated_arrival := estimated_arrival; po_status := status |} ;;
  db <- get ;;
  check_unique (package_orders db) NEW ;;
  modify (fun db => set_package_orders db (package_orders db ++ [NEW])).

(** [UPDATE package_orders SET ... WHERE p], row by row. *)
Fixpoint update_package_orders_from (p : package_order -> bool)
    (set : package_order -> package_order) (done todo : list package_order) : M unit :=
  match todo with
  | [] => ret tt
  | po :: rest =>
      if p po then
        NEW <- validate_order_assignment (set po) ;;
        check_unique (done ++ rest) NEW ;;
        modify (fun db => set_package_orders db (done ++ NEW :: rest)) ;;
        update_package_orders_from p set (done ++ [NEW]) rest
      else update_package_orders_from p set (done ++ [po]) rest
  end.

Definition update_package_orders (p : package_order -> bool)
    (set : package_order -> package_order) : M unit :=
  db <- get ;;
  update_package_orders_from p set [] (package_orders db).

(** [DELETE FROM package_orders WHERE p]. *)
Definition delete_package_orders (p : package_order -> bool) : M unit :=
  modify (fun db =>
            set_package_orders db (filter (fun po => negb (p po)) (package_orders db))).

End broad_pine.

(** ** 20250325010959_crystal_ocean.sql: packages, logs and the route *)

Module crystal_ocean.

Definition calculate_route_distance (start_lat start_lon end_lat end_lon : R) : R :=
  let R_ := 6371%R in
  let start_lat := frosty_union.radians start_lat in
  let start_lon := frosty_union.radians start_lon in
  let end_lat := frosty_union.radians end_lat in
  let end_lon := frosty_union.radians end_lon in
  let dlat := (end_lat - start_lat)%R in
  let dlon := (end_lon - start_lon)%R in
  let a := (sin (dlat / 2) ^ 2 + cos start_lat * cos end_lat * sin (dlon / 2) ^ 2)%R in
  let c := (2 * asin (sqrt a))%R in
  let d := (R_ * c)%R in
  d.

(** The trigger function of [notify_unassigned_packages_trigger],
    [AFTER INSERT ON driver_packages ... WHEN (NEW.driver_id IS NULL)]. *)
Definition notify_unassigned_packages (NEW : driver_package) : M unit :=
  insert_package_logs (Some (dp_id NEW)) "unassigned_package_alert"
    [("facility_id"%string, j_uuid (dp_facility_id NEW));
     ("package_date"%string, j_date (dp_package_date NEW))].

(** [INSERT INTO driver_packages (driver_id, facility_id, package_date,
    start_time, end_time, status) VALUES (...) RETURNING id]. *)
Definition insert_driver_packages (driver_id facility_id : option uuid)
    (package_date : option date) (start_time end_time : time)
    (status : package_status) : M uuid :=
  match package_date with
  | None => raise (not_null_violation "package_date")
  | Some package_date =>
      db <- get ;;
      let NEW := {| dp_id := next_uuid db; dp_driver_id := driver_id;
                    dp_facility_id := facility_id; dp_package_date := package_date;
                    dp_start_time := start_time; dp_end_time := end_time;
                    dp_status := status; dp_created_at := now db |} in
      modify (fun db =>
                set_driver_packages
                  (set_next_uuid db (N.succ (next_uuid db)))
                  (driver_packages db ++ [NEW])) ;;
      (if is_null (dp_driver_id NEW) then notify_unassigned_packages NEW else ret tt) ;;
      ret (dp_id NEW)
  end.

Section route.

(** [random n] is the result of the call of [random()] after [n] earlier ones. *)
Variable random : nat -> R.

(** The coordinates of the facility of the package, the starting point. *)
Definition facility_position (db : database) (package_id : uuid) : option (R * R) :=
  select_into (fun x => Some x)
    (flat_map (fun f =>
                 flat_map (fun dp =>
                             if sql_eq N.eqb (Some (f_id f)) (dp_facility_id dp)
                                && (dp_id dp =? package_id)%N
                             then [(f_latitude f, f_longitude f)] else [])
                          (driver_packages db))
              (facilities db)).

(** The rows of [package_orders po JOIN orders o ON po.order_id = o.id] of
    the package that have no sequence number yet. *)
Definition unsequenced (db : database) (package_id : uuid) : list package_order :=
  filter (fun po =>
            existsb (fun o => sql_eq N.eqb (po_order_id po) (Some (o_id o))) (orders db)
            && sql_eq N.eqb (po_package_id po) (Some package_id)
            && (po_sequence_number po =? 0))
         (package_orders db).

(** The sort key of a row: the distance from the current position to a
    simulated point, [random() * 90] and [random() * 180]. *)
Definition simulated_distance (current : option (R * R)) (n : nat) : option R :=
  match current with
  | Some (current_lat, current_lon) =>
      Some (calculate_route_distance current_lat current_lon
              (random n * 90) (random (S n) * 180))%R
  | None => None
  end.

Fixpoint with_simulated_distance (current : option (R * R)) (n : nat)
    (rows : list package_order) : list (package_order * option R) :=
  match rows with
  | [] => []
  | po :: t =>
      (po, simulated_distance current n) :: with_simulated_distance current (S (S n)) t
  end.

(** The body of the [WHILE EXISTS (...)] loop of [optimize_route]. *)
Fixpoint optimize_route_loop (fuel : nat) (package_id : uuid)
    (current : option (R * R)) (sequence : Z) : M unit :=
  db <- get ;;
  if existsb (fun po => sql_eq N.eqb (po_package_id po) (Some package_id)
                        && (po_sequence_number po =? 0))
             (package_orders db)
  then
    match fuel with
    | O => fun _ => OutOfFuel
    | S fuel =>
        let rows := unsequenced db package_id in
        let next_order_id :=
          match first_min (fun a b => key_lt (snd a) (snd b))
                          (with_simulated_distance current (random_calls db) rows) with
          | Some (po, _) => po_order_id po
          | None => None
          end in
        modify (fun db =>
                  set_random_calls db (random_calls db + 2 * List.length rows)%nat) ;;
        broad_pine.update_package_orders
          (fun po => sql_eq N.eqb (po_package_id po) (Some package_id)
                     && sql_eq N.eqb (po_order_id po) next_order_id)
          (fun po => set_sequence_number po sequence) ;;
        optimize_route_loop fuel package_id current (sequence + 1)
    end
  else ret tt.

Definition optimize_route (fuel : nat) (package_id : uuid) : M unit :=
  db <- get ;;
  optimize_route_loop fuel package_id (facility_position db package_id) 1.

End route.

End crystal_ocean.

(** ** Automatic package generation for a single order *)

Module order_package.

Definition count_package_orders (db : database) (package_id : uuid) : nat :=
  List.length (filter (fun po => sql_eq N.eqb (po_package_id po) (Some package_id))
                      (package_orders db)).

(** The packages of a driver for a date. *)
Definition packages_of (db : database) (driver_id : option uuid)
    (delivery_date : option date) : list driver_package :=
  filter (fun dp => sql_eq N.eqb (dp_driver_id dp) driver_id
                    && sql_eq Z.eqb (Some (dp_package_date dp)) delivery_date)
         (driver_packages db).

(** [SELECT COUNT( * ) FROM driver_packages dp JOIN package_orders po ...]:
    the orders of a driver for a date. *)
Definition orders_of_driver (db : database) (driver_id : uuid)
    (delivery_date : option date) : nat :=
  List.length
    (flat_map (fun dp =>
                 filter (fun po => sql_eq N.eqb (Some (dp_id dp)) (po_package_id po))
                        (package_orders db))
              (packages_of db (Some driver_id) delivery_date)).

Definition find_available_driver (db : database) (facility_id : option uuid)
    (delivery_date : option date) (delivery_time : option time) : option uuid :=
  let joined :=
    flat_map (fun d =>
                flat_map (fun fd =>
                            if sql_eq N.eqb (Some (d_id d)) (fd_driver_id fd)
                            then [(d, fd)] else [])
                         (facility_drivers db))
             (drivers db) in
  let available :=
    filter (fun r =>
              sql_eq N.eqb (fd_facility_id (snd r)) facility_id
              && d_status (fst r)
              && negb (existsb (fun dp => 15 <=? count_package_orders db (dp_id dp))%nat
                               (packages_of db (Some (d_id (fst r))) delivery_date)))
           joined in
  option_map (fun r => d_id (fst r))
    (first_min (fun a b =>
                  (orders_of_driver db (d_id (fst a)) delivery_date
                   <? orders_of_driver db (d_id (fst b)) delivery_date)%nat)
               available).

(** The package of the order, [SELECT package_id INTO existing_package_id
    FROM package_orders WHERE order_id = NEW.id]. *)
Definition existing_package (db : database) (order_id : uuid) : option uuid :=
  select_into po_package_id
    (filter (fun po => sql_eq N.eqb (po_order_id po) (Some order_id))
            (package_orders db)).

(** [SELECT COALESCE(MAX(sequence_number), 0) + 1 FROM package_orders
    WHERE package_id = package_id]. *)
Definition next_sequence_number (db : database) (package_id : uuid) : Z :=
  coalesce
    (fold_left (fun m po =>
                  match m with
                  | None => Some (po_sequence_number po)
                  | Some x => Some (Z.max x (po_sequence_number po))
                  end)
               (filter (fun po => sql_eq N.eqb (po_package_id po) (Some package_id))
                       (package_orders db))
               None)
    0 + 1.

(** The trigger function of [generate_package_for_order], [BEFORE INSERT OR
    UPDATE OF status, facility_id, estimated_delivery ON orders]. *)
Definition handle_order_package (NEW : order) : M order :=
  if sql_neq String.eqb (o_status NEW) (Some "processing"%string)
     || is_null (o_facility_id NEW)
  then ret NEW
  else
    let delivery_date := date_of (o_estimated_delivery NEW) in
    let delivery_time := time_of (o_estimated_delivery NEW) in
    db <- get ;;
    let existing_package_id := existing_package db (o_id NEW) in
    if is_not_null existing_package_id then ret NEW
    else
      let available_driver_id :=
        find_available_driver db (o_facility_id NEW) delivery_date delivery_time in
      let package_id :=
        option_map dp_id
          (first_min (fun a b => dp_created_at a >? dp_created_at b)
             (filter (fun dp => (count_package_orders db (dp_id dp) <? 15)%nat)
                     (packages_of db available_driver_id delivery_date))) in
      package_id <-
        (if is_null package_id && is_not_null available_driver_id then
           p <- crystal_ocean.insert_driver_packages available_driver_id
                  (o_facility_id NEW) delivery_date 32400 61200 pkg_assigned ;;
           ret (Some p)
         else ret package_id) ;;
      package_id <-
        (if is_null package_id then
           p <- crystal_ocean.insert_driver_packages None
                  (o_facility_id NEW) delivery_date 32400 61200 pkg_pending ;;
           ret (Some p)
         else ret package_id) ;;
      db <- get ;;
      broad_pine.insert_package_orders package_id (Some (o_id NEW))
        (match package_id with
         | Some p => next_sequence_number db p
         | None => 1
         end)
        delivery_time stop_pending ;;
      let NEW := if is_not_null available_driver_id
                 then set_assigned_driver NEW available_driver_id else NEW in
      insert_package_logs package_id "order_assigned"
        [("order_id"%string, j_uuid (Some (o_id NEW)));
         ("driver_id"%string, j_uuid available_driver_id);
         ("facility_id"%string, j_uuid (o_facility_id NEW))] ;;
      ret NEW.

Fixpoint replace_nth {A : Type} (i : nat) (x : A) (l : list A) : list A :=
  match l, i with
  | [], _ => []
  | _ :: t, O => x :: t
  | y :: t, S i => y :: replace_nth i x t
  end.

(** An [UPDATE] of the status of the order [order_id] to the status it has:
    the row triggers [enforce_active_driver] and [generate_package_for_order]
    fire on the row, and the row they return is stored. *)
Fixpoint touch_orders_from (order_id : uuid) (i : nat) (todo : list order) : M unit :=
  match todo with
  | [] => ret tt
  | o :: rest =>
      if (o_id o =? order_id)%N then
        NEW <- white_bar.validate_driver_status o ;;
        NEW <- handle_order_package NEW ;;
        modify (fun db => set_orders db (replace_nth i NEW (orders db))) ;;
        touch_orders_from order_id (S i) rest
      else touch_orders_from order_id (S i) rest
  end.

Definition AssignOrder (order_id : uuid) : M unit :=
  db <- get ;;
  touch_orders_from order_id 0 (orders db).

End order_package.

(** ** 20250325020803_rough_pine.sql: package generation for a date *)

Module rough_pine.

Section batch.

Variable random : nat -> R.

(** The orders still to be put into a package: [facility_id = facility.id],
    [date(estimated_delivery) = shift_date], [status = 'processing'],
    [assigned_driver_id IS NULL]. *)
Definition unassigned_orders (db : database) (facility_id : uuid) (shift_date : date)
    : list order :=
  filter (fun o =>
            sql_eq N.eqb (o_facility_id o) (Some facility_id)
            && sql_eq Z.eqb (date_of (o_estimated_delivery o)) (Some shift_date)
            && sql_eq String.eqb (o_status o) (Some "processing"%string)
            && is_null (o_assigned_driver_id o))
         (orders db).

Definition active_status (s : package_status) : bool :=
  match s with
  | pkg_pending | pkg_assigned | pkg_in_progress => true
  | _ => false
  end.

(** The drivers of the facility without a package for the date. *)
Definition available_drivers (db : database) (facility_id : uuid) (shift_date : date)
    : list uuid :=
  map (fun r => d_id (fst r))
    (filter (fun r : driver * facility_driver =>
               sql_eq N.eqb (fd_facility_id (snd r)) (Some facility_id)
               && d_status (fst r)
               && negb (existsb (fun dp =>
                                   sql_eq N.eqb (dp_driver_id dp) (Some (d_id (fst r)))
                                   && (dp_package_date dp =? shift_date)
                                   && active_status (dp_status dp))
                                (driver_packages db)))
            (flat_map (fun d =>
                         flat_map (fun fd =>
                                     if sql_eq N.eqb (Some (d_id d)) (fd_driver_id fd)
                                     then [(d, fd)] else [])
                                  (facility_drivers db))
                      (drivers db))).

(** [INSERT INTO package_orders (package_id, order_id, sequence_number)
    SELECT package_id, id, 0 FROM orders_to_assign], with [LIMIT 15]. *)
Definition assign_orders (package_id : uuid) (facility_id : uuid) (shift_date : date)
    : M unit :=
  db <- get ;;
  for_each (firstn 15 (unassigned_orders db facility_id shift_date))
    (fun o => broad_pine.insert_package_orders (Some package_id) (Some (o_id o)) 0
                None stop_pending).

(** The body of [FOR available_driver IN (...) LOOP]; the result is the
    value of [order_count] when the loop is left. *)
Fixpoint driver_loop (fuel : nat) (facility_id : uuid) (shift_date : date)
    (available : list uuid) (order_count : nat) : M nat :=
  match available with
  | [] => ret order_count
  | available_driver :: rest =>
      package_id <- crystal_ocean.insert_driver_packages (Some available_driver)
                      (Some facility_id) (Some shift_date) 32400 61200 pkg_assigned ;;
      assign_orders package_id facility_id shift_date ;;
      db <- get ;;
      broad_pine.update_orders_assigned_driver_id
        (fun o => existsb (fun po => sql_eq N.eqb (po_package_id po) (Some package_id)
                                     && sql_eq N.eqb (po_order_id po) (Some (o_id o)))
                          (package_orders db))
        (Some available_driver) ;;
      crystal_ocean.optimize_route random fuel package_id ;;
      db <- get ;;
      let order_count := List.length (unassigned_orders db facility_id shift_date) in
      if (order_count =? 0)%nat then ret order_count
      else driver_loop fuel facility_id shift_date rest order_count
  end.

(** One turn of [WHILE order_count > 0 LOOP]: a package without a driver,
    up to 15 orders for it, and their route. *)
Definition pending_cycle (fuel : nat) (facility_id : uuid) (shift_date : date)
    : M unit :=
  package_id <- crystal_ocean.insert_driver_packages None
                  (Some facility_id) (Some shift_date) 32400 61200 pkg_pending ;;
  assign_orders package_id facility_id shift_date ;;
  crystal_ocean.optimize_route random fuel package_id.

(** [WHILE order_count > 0 LOOP]: packages without a driver.  The fuel
    bounds the turns of this loop and of the loop of [optimize_route]. *)
Fixpoint pending_loop (fuel : nat) (facility_id : uuid) (shift_date : date)
    (order_count : nat) : M unit :=
  if (0 <? order_count)%nat then
    match fuel with
    | O => fun _ => OutOfFuel
    | S fuel' =>
        pending_cycle fuel facility_id shift_date ;;
        db <- get ;;
        pending_loop fuel' facility_id shift_date
          (List.length (unassigned_orders db facility_id shift_date))
    end
  else ret tt.

(** The block [BEGIN ... ] that handles one facility. *)
Definition process_facility (fuel : nat) (shift_date : date) (f : facility) : M unit :=
  db <- get ;;
  let order_count := List.length (unassigned_orders db (f_id f) shift_date) in
  if (order_count =? 0)%nat then ret tt
  else
    order_count <- driver_loop fuel (f_id f) shift_date
                     (available_drivers db (f_id f) shift_date) order_count ;;
    pending_loop fuel (f_id f) shift_date order_count.

(** The handler [EXCEPTION WHEN OTHERS THEN INSERT INTO package_logs ...]. *)
Definition log_generation_error (f : facility) (e : exn) : M unit :=
  insert_package_logs None "package_generation_error"
    [("facility_id"%string, j_uuid (Some (f_id f)));
     ("error"%string, j_error e)].

Definition generate_driver_packages_for (fuel : nat) (shift_date : date)
    (fs : list facility) : M unit :=
  for_each fs
    (fun f => try_catch (process_facility fuel shift_date f) (log_generation_error f)).

Definition generate_driver_packages (fuel : nat) (shift_date : date) : M unit :=
  db <- get ;;
  generate_driver_packages_for fuel shift_date (filter f_status (facilities db)).

End batch.

End rough_pine.

(** ** The vocabulary of the properties *)

Import frosty_union broad_pine crystal_ocean order_package rough_pine.

(** C5 as stated: among the nearest open facilities the one with the lowest
    id is returned. *)
Definition lowest_id_among_nearest : Prop :=
  forall (db : database) (order_lat order_lon : R) (delivery_time : option timestamptz),
    let dist f := calculate_distance order_lat order_lon (f_latitude f) (f_longitude f) in
    open_facilities db (time_of delivery_time) <> [] ->
    exists f,
      find_nearest_facility db order_lat order_lon delivery_time = Some (f_id f)
      /\ In f (open_facilities db (time_of delivery_time))
      /\ (forall g, In g (open_facilities db (time_of delivery_time)) ->
                    (dist f <= dist g)%R)
      /\ (forall g, In g (open_facilities db (time_of delivery_time)) ->
                    dist g = dist f -> (f_id f <= f_id g)%N).

(** Another order has the driver of [NEW] for the date of [NEW]. *)
Definition driver_has_other_order (db : database) (NEW : order) : Prop :=
  exists o d day,
    In o (orders db) /\ o_id o <> o_id NEW
    /\ o_assigned_driver_id o = Some d /\ o_assigned_driver_id NEW = Some d
    /\ date_of (o_estimated_delivery o) = Some day
    /\ date_of (o_estimated_delivery NEW) = Some day.

(** C9 as stated: the driver of [NEW] has an active package for the date of
    [NEW] other than the package of the order. *)
Definition driver_has_other_active_package (db : database) (NEW : order) : Prop :=
  exists dp,
    In dp (driver_packages db)
    /\ dp_driver_id dp <> None
    /\ dp_driver_id dp = o_assigned_driver_id NEW
    /\ Some (dp_package_date dp) = date_of (o_estimated_delivery NEW)
    /\ rough_pine.active_status (dp_status dp) = true
    /\ order_package.existing_package db (o_id NEW) <> Some (dp_id dp).

Definition double_booking_guard : Prop :=
  forall (db : database) (NEW : order),
    (driver_has_other_active_package db NEW ->
     exists e, prevent_duplicate_driver_assignment NEW db = Raise e)
    /\ (~ driver_has_other_active_package db NEW ->
        prevent_duplicate_driver_assignment NEW db = Ok (NEW, db)).

(** A statement keeps a relation between the state before and after it. *)
Definition keeps {A : Type} (R : database -> database -> Prop) (m : M A) : Prop :=
  forall db a db', m db = Ok (a, db') -> R db db'.

(** An invariant, as a relation between two states. *)
Definition maintains (I : database -> Prop) (db db' : database) : Prop := I db -> I db'.

(** Only the table [orders] differs. *)
Definition orders_only (db db' : database) : Prop := db' = set_orders db (orders db').

(** The assignments link the same orders to the same packages, and the
    packages, the log and the uuid generator are the same. *)
Definition po_key (po : package_order) : option uuid * option uuid :=
  (po_package_id po, po_order_id po).

Record same_assignments (db db' : database) : Prop := {
  sa_keys : map po_key (package_orders db') = map po_key (package_orders db);
  sa_packages : driver_packages db' = driver_packages db;
  sa_logs : package_logs db' = package_logs db;
  sa_uuid : next_uuid db' = next_uuid db;
  sa_facilities : facilities db' = facilities db
}.

Definition total {A : Type} (m : M A) : Prop := forall db, m db <> OutOfFuel.

(** The rows of [package_orders] that reference the order. *)
Definition assignments_of (rows : list package_order) (order_id : uuid)
    : list package_order :=
  filter (fun po => sql_eq N.eqb (po_order_id po) (Some order_id)) rows.

Definition at_most_one_assignment (rows : list package_order) : Prop :=
  forall order_id, (List.length (assignments_of rows order_id) <= 1)%nat.


Definition keys_same (db db' : database) : Prop :=
  map po_key (package_orders db') = map po_key (package_orders db).

(** One change of the database: a statement on [package_orders] that the
    guards let through, an entry point of the engine, or any change that
    leaves [package_orders] alone. *)
Inductive change : database -> database -> Prop :=
| change_insert_assignment db package_id order_id seq arr st db' :
    insert_package_orders package_id order_id seq arr st db = Ok (tt, db') ->
    change db db'
| change_update_assignment db p set db' :
    update_package_orders p set db = Ok (tt, db') -> change db db'
| change_delete_assignment db p db' :
    delete_package_orders p db = Ok (tt, db') -> change db db'
| change_order_inserted db NEW NEW' db' :
    order_package.handle_order_package NEW db = Ok (NEW', db') ->
    change db (set_orders db' (orders db' ++ [NEW']))
| change_order_updated db order_id db' :
    order_package.AssignOrder order_id db = Ok (tt, db') -> change db db'
| change_generate db random fuel shift_date db' :
    rough_pine.generate_driver_packages random fuel shift_date db = Ok (tt, db') ->
    change db db'
| change_optimize_route db random fuel package_id db' :
    crystal_ocean.optimize_route random fuel package_id db = Ok (tt, db') ->
    change db db'
| change_other db db' :
    package_orders db' = package_orders db -> change db db'.





Definition MAX_PACKAGE_SIZE : nat := 15.

Definition capacity_respected (db : database) : Prop :=
  forall p, (count_package_orders db p <= MAX_PACKAGE_SIZE)%nat.

(** [next_uuid] has not been used for a package. *)
Definition uuids_fresh (db : database) : Prop :=
  (forall p, In (Some p) (map po_package_id (package_orders db)) -> (p < next_uuid db)%N)
  /\ (forall dp, In dp (driver_packages db) -> (dp_id dp < next_uuid db)%N).

Definition engine_invariant (db : database) : Prop :=
  capacity_respected db /\ uuids_fresh db.

Definition count_refs (refs : list (option uuid)) (p : uuid) : nat :=
  List.length (filter (fun x => sql_eq N.eqb x (Some p)) refs).



(** A driver that [find_available_driver] may return: active, serving the
    facility, and without a full package for the day. *)
Definition eligible_driver (db : database) (facility_id : option uuid) (day : date)
    (d : uuid) : Prop :=
  exists drv fd,
    In drv (drivers db) /\ In fd (facility_drivers db)
    /\ d_id drv = d /\ fd_driver_id fd = Some d
    /\ sql_eq N.eqb (fd_facility_id fd) facility_id = true
    /\ d_status drv = true
    /\ forall dp, In dp (packages_of db (Some d) (Some day)) ->
                  (count_package_orders db (dp_id dp) < 15)%nat.

(** The log is only appended to. *)
Definition logs_extend (db db' : database) : Prop :=
  exists l, package_logs db' = package_logs db ++ l.

(** The entry that the handler writes for a facility and an error. *)
Definition generation_error (f : facility) (e : exn) : package_log :=
  {| pl_package_id := None; pl_event_type := "package_generation_error";
     pl_details := [("facility_id"%string, j_uuid (Some (f_id f)));
                    ("error"%string, j_error e)] |}.

(** The first row of [driver_packages] with the id has no driver. *)
Definition driverless (db : database) (pid : uuid) : Prop :=
  select_into dp_driver_id
    (filter (fun dp => sql_eq N.eqb (Some (dp_id dp)) (Some pid)) (driver_packages db))
  = None.

(** A row of [orders] is as it was or has lost its driver. *)
Definition cleared (o o' : order) : Prop := o' = o \/ o' = set_assigned_driver o None.

(** The packages are the same and no order has got a driver. *)
Definition drivers_cleared (db db' : database) : Prop :=
  driver_packages db' = driver_packages db /\ Forall2 cleared (orders db) (orders db').

(** What a statement on the rows of a package without a driver keeps. *)
Definition no_driver_gained (pid : uuid) (db db' : database) : Prop :=
  driverless db pid -> drivers_cleared db db'.

(** The order at other coordinates. *)
Definition set_coordinates (o : order) (lat lon : option R) : order :=
  {| o_id := o_id o; o_status := o_status o; o_facility_id := o_facility_id o;
     o_assigned_driver_id := o_assigned_driver_id o;
     o_estimated_delivery := o_estimated_delivery o;
     o_latitude := lat; o_longitude := lon |}.

(** The order at the coordinates that [place] gives for its id. *)
Definition move (place : uuid -> option R * option R) (o : order) : order :=
  set_coordinates o (fst (place (o_id o))) (snd (place (o_id o))).

(** The database with every order moved. *)
Definition relocate (place : uuid -> option R * option R) (db : database) : database :=
  set_orders db (map (move place) (orders db)).

Definition relocated {A : Type} (place : uuid -> option R * option R) (g : A -> A)
    (r : outcome (A * database)) : outcome (A * database) :=
  match r with
  | Ok (a, db) => Ok (g a, relocate place db)
  | Raise e => Raise e
  | OutOfFuel => OutOfFuel
  end.

(** [m'] does on the relocated database what [m] does on the database. *)
Definition coordinate_blind {A : Type} (place : uuid -> option R * option R)
    (g : A -> A) (m m' : M A) : Prop :=
  forall db, m' (relocate place db) = relocated place g (m db).

(** ** Example data *)

Module Examples.

Definition at_time (d : date) (t : time) : option timestamptz :=
  Some {| ts_date := d; ts_time := t |}.

Definition empty_db : database :=
  {| facilities := []; drivers := []; facility_drivers := []; orders := [];
     driver_packages := []; package_orders := []; package_logs := [];
     next_uuid := 100%N; now := 0; random_calls := 0%nat |}.

Definition set_facilities (db : database) (l : list facility) : database :=
  {| facilities := l; drivers := drivers db;
     facility_drivers := facility_drivers db; orders := orders db;
     driver_packages := driver_packages db; package_orders := package_orders db;
     package_logs := package_logs db; next_uuid := next_uuid db; now := now db;
     random_calls := random_calls db |}.

Definition set_drivers (db : database) (l : list driver) (fd : list facility_driver)
    : database :=
  {| facilities := facilities db; drivers := l;
     facility_drivers := fd; orders := orders db;
     driver_packages := driver_packages db; package_orders := package_orders db;
     package_logs := package_logs db; next_uuid := next_uuid db; now := now db;
     random_calls := random_calls db |}.

(** A facility at the origin, open from 08:00 to 20:00. *)
Definition day_facility (id : uuid) : facility :=
  {| f_id := id; f_status := true; f_latitude := 0%R; f_longitude := 0%R;
     f_opening_hour := Some 28800; f_close_hour := Some 72000 |}.

(** A processing order of facility [fac] for day 1 at noon. *)
Definition processing_order (id : uuid) (fac : uuid) : order :=
  {| o_id := id; o_status := Some "processing"%string; o_facility_id := Some fac;
     o_assigned_driver_id := None; o_estimated_delivery := at_time 1 43200;
     o_latitude := None; o_longitude := None |}.

(** Two open facilities at the same place; the one with the higher id comes
    first in the scan. *)
Definition twin_facilities : database :=
  set_facilities empty_db [day_facility 2%N; day_facility 1%N].



(** Driver 7 has an active package for day 1 and no order. *)
Definition package_of_driver : driver_package :=
  {| dp_id := 50%N; dp_driver_id := Some 7%N; dp_facility_id := Some 1%N;
     dp_package_date := 1; dp_start_time := 32400; dp_end_time := 61200;
     dp_status := pkg_assigned; dp_created_at := 0 |}.

Definition order_for_booked_driver : order :=
  set_assigned_driver (processing_order 11%N 1%N) (Some 7%N).

Definition booked_driver : database :=
  set_driver_packages
    (set_orders
       (set_drivers (set_facilities empty_db [day_facility 1%N])
          [{| d_id := 7%N; d_status := true |}]
          [{| fd_facility_id := Some 1%N; fd_driver_id := Some 7%N |}])
       [processing_order 11%N 1%N])
    [package_of_driver].

(** Driver 7 has no package, and order 12 of day 1. *)
Definition driver_with_order : database :=
  set_orders
    (set_drivers (set_facilities empty_db [day_facility 1%N])
       [{| d_id := 7%N; d_status := true |}]
       [{| fd_facility_id := Some 1%N; fd_driver_id := Some 7%N |}])
    [processing_order 11%N 1%N;
     set_assigned_driver (processing_order 12%N 1%N) (Some 7%N)].

(** Facility 1 with one order to dispatch and no driver. *)
Definition no_driver_db : database :=
  set_orders (set_facilities empty_db [day_facility 1%N])
    [processing_order 11%N 1%N].

(** Facility 1, whose order 11 is in package 50 without a driver, and
    facility 2 with order 21 and driver 7. *)
Definition two_facilities : database :=
  set_package_orders
    (set_driver_packages
       (set_orders
          (set_drivers
             (set_facilities empty_db
                [day_facility 1%N; day_facility 2%N])
             [{| d_id := 7%N; d_status := true |}]
             [{| fd_facility_id := Some 2%N; fd_driver_id := Some 7%N |}])
          [processing_order 11%N 1%N; processing_order 21%N 2%N])
       [{| dp_id := 50%N; dp_driver_id := None; dp_facility_id := Some 1%N;
           dp_package_date := 1; dp_start_time := 32400; dp_end_time := 61200;
           dp_status := pkg_pending; dp_created_at := 0 |}])
    [{| po_id := 60%N; po_package_id := Some 50%N; po_order_id := Some 11%N;
        po_sequence_number := 1; po_estimated_arrival := None;
        po_status := stop_pending |}].

Definition no_random (n : nat) : R := 0%R.

Definition stop_order (id : uuid) (lat lon : R) : order :=
  {| o_id := id; o_status := Some "processing"%string; o_facility_id := Some 1%N;
     o_assigned_driver_id := None; o_estimated_delivery := at_time 1 43200;
     o_latitude := Some lat; o_longitude := Some lon |}.

Definition stop (id order_id : uuid) (seq : Z) : package_order :=
  {| po_id := id; po_package_id := Some 50%N; po_order_id := Some order_id;
     po_sequence_number := seq; po_estimated_arrival := None;
     po_status := stop_pending |}.

(** Package 50 of the facility at the origin with two stops without a
    sequence number: order 11 at the facility, order 12 far away. *)
Definition two_stops : database :=
  set_package_orders
    (set_driver_packages
       (set_orders (set_facilities empty_db [day_facility 1%N])
          [stop_order 11%N 0 0; stop_order 12%N 45 0])
       [{| dp_id := 50%N; dp_driver_id := None; dp_facility_id := Some 1%N;
           dp_package_date := 1; dp_start_time := 32400; dp_end_time := 61200;
           dp_status := pkg_pending; dp_created_at := 0 |}])
    [stop 60%N 11%N 0; stop 61%N 12%N 0].

(** Results of [random()]: 0.5 at the first call and 0 afterwards. *)
Definition half_then_zero (n : nat) : R :=
  match n with O => (1 / 2)%R | S _ => 0%R end.

(** Facility 1 with driver 7 and two orders to dispatch for day 1. *)
Definition one_driver_two_orders : database :=
  set_orders
    (set_drivers (set_facilities empty_db [day_facility 1%N])
       [{| d_id := 7%N; d_status := true |}]
       [{| fd_facility_id := Some 1%N; fd_driver_id := Some 7%N |}])
    [processing_order 11%N 1%N; processing_order 12%N 1%N].

End Examples.
Import Examples.

(** ** The haversine term of the distance functions *)

(** The value of [a] in [calculate_distance] and [calculate_route_distance],
    from the coordinates in degrees. *)
Definition haversine (lat1 lon1 lat2 lon2 : R) : R :=
  (sin ((radians lat2 - radians lat1) / 2) ^ 2
   + cos (radians lat1) * cos (radians lat2)
     * sin ((radians lon2 - radians lon1) / 2) ^ 2)%R.

(** ** The vocabulary of the route sequencer *)



(** Only the tables [orders] and [package_orders] and the count of the calls
    of [random()] differ. *)
Definition stops_and_orders_only (db db' : database) : Prop :=
  db' = set_random_calls
          (set_package_orders (set_orders db (orders db')) (package_orders db'))
          (random_calls db').

(** The rows of [orders] are the same up to their drivers. *)
Definition same_orders_but_driver (db db' : database) : Prop :=
  Forall2 (fun o o' => exists d, o' = set_assigned_driver o d) (orders db) (orders db').




(** ** The vocabulary of the guards on assignments *)






(** ** The statements that remove duplicate assignments *)

Module duplicate_cleanup.

(** A row of [package_orders] with its column [created_at]. *)
Record stored := { st_row : package_order; st_created_at : option Z }.

Definition st_order_id (r : stored) : option uuid := po_order_id (st_row r).

(** [a < b] is true. *)
Definition sql_lt (a b : option Z) : bool :=
  match a, b with
  | Some x, Some y => x <? y
  | _, _ => false
  end.

(** 20250325021504_broad_pine.sql and 20250325021227_foggy_spring.sql:
    [DELETE FROM package_orders po1 WHERE EXISTS (SELECT 1 FROM package_orders
    po2 WHERE po2.order_id = po1.order_id AND po2.created_at < po1.created_at)];
    the result is the table after the statement. *)
Definition delete_later_assignments (rows : list stored) : list stored :=
  filter (fun po1 =>
            negb (existsb (fun po2 =>
                             sql_eq N.eqb (st_order_id po2) (st_order_id po1)
                             && sql_lt (st_created_at po2) (st_created_at po1))
                          rows))
         rows.

(** [ORDER BY created_at]: ascending, NULL last. *)
Definition created_before (a b : option Z) : bool :=
  match a, b with
  | Some x, Some y => x <? y
  | Some _, None => true
  | None, _ => false
  end.

(** [PARTITION BY order_id]: the rows without an order are one partition. *)
Definition same_partition (a b : stored) : bool :=
  match st_order_id a, st_order_id b with
  | Some x, Some y => (x =? y)%N
  | None, None => true
  | _, _ => false
  end.

(** [r'] is a row of the partition of [r] that sorts before [r]. *)
Definition sorts_before (r r' : stored) : bool :=
  same_partition r' r && created_before (st_created_at r') (st_created_at r).

(** [r'] is a row of the partition of [r], and [r] does not sort before it. *)
Definition not_after (r r' : stored) : bool :=
  same_partition r' r && negb (created_before (st_created_at r) (st_created_at r')).

(** [SELECT order_id, ROW_NUMBER() OVER (PARTITION BY order_id ORDER BY
    created_at) AS row_num FROM package_orders]: the number of a row is one
    more than the number of rows of its partition that come before it in
    the order of [created_at]; rows with the same [created_at] are taken in
    scan order.  [before] are the rows of the scan before [after]. *)
Fixpoint row_numbers (before after : list stored) : list (option uuid * nat) :=
  match after with
  | [] => []
  | r :: t =>
      (st_order_id r,
       S (List.length (filter (not_after r) before)
          + List.length (filter (sorts_before r) t)))
      :: row_numbers (before ++ [r]) t
  end.

Definition duplicates (rows : list stored) : list (option uuid * nat) :=
  row_numbers [] rows.

(** The cleanup of the migration that first adds [unique_order_assignment]:
    [WITH duplicates AS (...) DELETE FROM package_orders WHERE order_id IN
    (SELECT order_id FROM duplicates WHERE row_num > 1)]. *)
Definition delete_duplicated_orders (rows : list stored) : list stored :=
  filter (fun r =>
            negb (existsb (fun d => sql_eq N.eqb (st_order_id r) (fst d)
                                    && (1 <? snd d)%nat)
                          (duplicates rows)))
         rows.

End duplicate_cleanup.

(** The rows of an order in a table with creation times. *)
Definition stored_of (rows : list duplicate_cleanup.stored) (order_id : uuid)
    : list duplicate_cleanup.stored :=
  filter (fun r => sql_eq N.eqb (duplicate_cleanup.st_order_id r) (Some order_id)) rows.

(** Two rows of the same order were not created at the same time, and both
    have a creation time. *)
Definition created_apart (a b : duplicate_cleanup.stored) : Prop :=
  sql_eq N.eqb (duplicate_cleanup.st_order_id a) (duplicate_cleanup.st_order_id b) = true ->
  exists x y, duplicate_cleanup.st_created_at a = Some x
              /\ duplicate_cleanup.st_created_at b = Some y /\ x <> y.

(** An assignment of an order to a package, created at a time. *)
Definition assignment_at (id package_id order_id : uuid) (created_at : option Z)
    : duplicate_cleanup.stored :=
  {| duplicate_cleanup.st_row :=
       {| po_id := id; po_package_id := Some package_id; po_order_id := Some order_id;
          po_sequence_number := 0; po_estimated_arrival := None;
          po_status := stop_pending |};
     duplicate_cleanup.st_created_at := created_at |}.

(** Order 11 in the packages 50 and 51, and order 12 in package 50. *)
Definition doubly_assigned : list duplicate_cleanup.stored :=
  [assignment_at 60%N 50%N 11%N (Some 5); assignment_at 61%N 51%N 11%N (Some 3);
   assignment_at 62%N 50%N 12%N (Some 4)].

(** Order 11 in the packages 50 and 51 since the same time. *)
Definition assigned_at_once : list duplicate_cleanup.stored :=
  [assignment_at 60%N 50%N 11%N (Some 5); assignment_at 61%N 51%N 11%N (Some 5)].

(** ** The vocabulary of the batch run *)

(** A package as a run of [generate_driver_packages] for [shift_date] over
    the facilities [fs] creates it. *)
Definition batch_package (fs : list facility) (shift_date : date)
    (dp : driver_package) : Prop :=
  dp_package_date dp = shift_date
  /\ (exists f, In f fs /\ dp_facility_id dp = Some (f_id f))
  /\ dp_start_time dp = 32400 /\ dp_end_time dp = 61200
  /\ ((dp_driver_id dp = None /\ dp_status dp = pkg_pending)
      \/ (dp_driver_id dp <> None /\ dp_status dp = pkg_assigned)).

(** The packages that were there are as they were, and those that have
    come are packages of the batch run. *)
Definition packages_added (fs : list facility) (shift_date : date)
    (db db' : database) : Prop :=
  exists l, driver_packages db' = driver_packages db ++ l
            /\ Forall (batch_package fs shift_date) l.

(** Facility 1 with order 11 and driver 7, who is not active. *)
Definition inactive_driver_db : database :=
  set_drivers no_driver_db
    [{| d_id := 7%N; d_status := false |}]
    [{| fd_facility_id := Some 1%N; fd_driver_id := Some 7%N |}].

(** ** Services, categories and items: the triggers of the catalog *)

Module catalog.

Record service := { s_id : uuid; s_status : bool }.

Record category := { c_id : uuid; c_service_id : option uuid; c_status : bool }.

(** A row of [items]; [category_id] and [service_id] are NOT NULL in the
    table and can be NULL in the row that a trigger is given. *)
Record item := {
  i_id : uuid;
  i_category_id : option uuid;
  i_service_id : option uuid;
  i_name : string;
  i_status : bool
}.

Record tables := {
  services : list service;
  categories : list category;
  items : list item
}.

Definition set_items (t : tables) (l : list item) : tables :=
  {| services := services t; categories := categories t; items := l |}.

Definition set_services (t : tables) (l : list service) : tables :=
  {| services := l; categories := categories t; items := items t |}.

Definition set_categories (t : tables) (l : list category) : tables :=
  {| services := services t; categories := l; items := items t |}.

(** What a trigger or a constraint of the catalog raises. *)
Inductive refusal :=
| item_moved_between_services
    (* 'Items cannot be moved between services. Delete and recreate the item instead.' *)
| inactive_service
    (* 'Items can only be assigned to active services' *)
| service_has_active_items
    (* 'Cannot deactivate service with active items' *)
| service_category_mismatch
    (* 'Item service must match the category service' *)
| item_moved_between_categories
    (* 'Items cannot be moved between categories. Delete and recreate the item instead.' *)
| inactive_category
    (* 'Items can only be assigned to active categories' *)
| category_has_active_items
    (* 'Cannot deactivate category with active items' *)
| category_full
    (* 'Categories cannot have more than 3 items' *)
| items_not_null (column : string)
| items_pkey
| unique_item_name_per_category.

Inductive result (A : Type) :=
| Accepted (a : A)
| Refused (e : refusal).
Arguments Accepted {A} a.
Arguments Refused {A} e.

Definition and_then {A B : Type} (r : result A) (k : A -> result B) : result B :=
  match r with
  | Accepted a => k a
  | Refused e => Refused e
  end.

(** [prevent_service_change], the function of [enforce_service_assignment]. *)
Definition prevent_service_change (OLD NEW : item) : result item :=
  if sql_neq N.eqb (i_service_id OLD) (i_service_id NEW)
  then Refused item_moved_between_services
  else Accepted NEW.

(** [validate_service_status], the function of [enforce_active_service]. *)
Definition validate_service_status (t : tables) (NEW : item) : result item :=
  if negb (existsb (fun s => sql_eq N.eqb (Some (s_id s)) (i_service_id NEW)
                             && s_status s)
                   (services t))
  then Refused inactive_service
  else Accepted NEW.

(** [validate_service_deactivation], the function of
    [enforce_service_deactivation]. *)
Definition validate_service_deactivation (t : tables) (OLD NEW : service)
    : result service :=
  if s_status OLD && negb (s_status NEW)
     && existsb (fun i => sql_eq N.eqb (i_service_id i) (Some (s_id OLD)) && i_status i)
                (items t)
  then Refused service_has_active_items
  else Accepted NEW.

(** [validate_service_category_match], the function of
    [enforce_service_category_match]. *)
Definition validate_service_category_match (t : tables) (NEW : item) : result item :=
  let category_service_id :=
    select_into c_service_id
      (filter (fun c => sql_eq N.eqb (Some (c_id c)) (i_category_id NEW))
              (categories t)) in
  if sql_neq N.eqb (i_service_id NEW) category_service_id
  then Refused service_category_mismatch
  else Accepted NEW.

(** [prevent_category_change], the function of [enforce_category_assignment]. *)
Definition prevent_category_change (OLD NEW : item) : result item :=
  if sql_neq N.eqb (i_category_id OLD) (i_category_id NEW)
  then Refused item_moved_between_categories
  else Accepted NEW.

(** [validate_category_status], the function of [enforce_active_category]. *)
Definition validate_category_status (t : tables) (NEW : item) : result item :=
  if negb (existsb (fun c => sql_eq N.eqb (Some (c_id c)) (i_category_id NEW)
                             && c_status c)
                   (categories t))
  then Refused inactive_category
  else Accepted NEW.

(** [validate_category_deactivation], the function of
    [enforce_category_deactivation]. *)
Definition validate_category_deactivation (t : tables) (OLD NEW : category)
    : result category :=
  if c_status OLD && negb (c_status NEW)
     && existsb (fun i => sql_eq N.eqb (i_category_id i) (Some (c_id OLD)) && i_status i)
                (items t)
  then Refused category_has_active_items
  else Accepted NEW.

(** [check_category_item_limit], the function of
    [enforce_category_item_limit]. *)
Definition check_category_item_limit (t : tables) (NEW : item) : result item :=
  if (3 <=? List.length
              (filter (fun i => sql_eq N.eqb (i_category_id i) (i_category_id NEW))
                      (items t)))%nat
  then Refused category_full
  else Accepted NEW.

(** The constraints of [items] on a row, against the other rows: NOT NULL
    on [category_id] and [service_id], the primary key, and
    [UNIQUE (category_id, name)]. *)
Definition items_constraints (others : list item) (NEW : item) : result item :=
  if is_null (i_category_id NEW) then Refused (items_not_null "category_id")
  else if is_null (i_service_id NEW) then Refused (items_not_null "service_id")
  else if existsb (fun i => (i_id i =? i_id NEW)%N) others then Refused items_pkey
  else if existsb (fun i => sql_eq N.eqb (i_category_id i) (i_category_id NEW)
                            && String.eqb (i_name i) (i_name NEW))
                  others
  then Refused unique_item_name_per_category
  else Accepted NEW.

(** The [BEFORE INSERT] row triggers of [items], in the order of their
    names: [enforce_active_category], [enforce_active_service],
    [enforce_category_item_limit], [enforce_service_category_match]. *)
Definition items_before_insert (t : tables) (NEW : item) : result item :=
  and_then (validate_category_status t NEW) (fun NEW =>
  and_then (validate_service_status t NEW) (fun NEW =>
  and_then (check_category_item_limit t NEW) (fun NEW =>
  validate_service_category_match t NEW))).

(** [INSERT INTO items VALUES (NEW)]. *)
Definition insert_items (NEW : item) (t : tables) : result tables :=
  and_then (items_before_insert t NEW) (fun NEW =>
  and_then (items_constraints (items t) NEW) (fun NEW =>
  Accepted (set_items t (items t ++ [NEW])))).

(** The [BEFORE UPDATE] row triggers of [items], in the order of their
    names: [enforce_active_category], [enforce_active_service],
    [enforce_category_assignment] when [OLD.category_id] is not NULL,
    [enforce_service_assignment] when [OLD.service_id] is not NULL,
    [enforce_service_category_match]. *)
Definition items_before_update (t : tables) (OLD NEW : item) : result item :=
  and_then (validate_category_status t NEW) (fun NEW =>
  and_then (validate_service_status t NEW) (fun NEW =>
  and_then (if is_not_null (i_category_id OLD)
            then prevent_category_change OLD NEW else Accepted NEW) (fun NEW =>
  and_then (if is_not_null (i_service_id OLD)
            then prevent_service_change OLD NEW else Accepted NEW) (fun NEW =>
  validate_service_category_match t NEW)))).

(** [UPDATE items SET ... WHERE p], row by row; [done] are the rows already
    visited and [todo] the rows still to visit. *)
Fixpoint update_items_from (p : item -> bool) (set : item -> item)
    (done todo : list item) (t : tables) : result tables :=
  match todo with
  | [] => Accepted t
  | i :: rest =>
      if p i then
        and_then (items_before_update t i (set i)) (fun NEW =>
        and_then (items_constraints (done ++ rest) NEW) (fun NEW =>
        update_items_from p set (done ++ [NEW]) rest
          (set_items t (done ++ NEW :: rest))))
      else update_items_from p set (done ++ [i]) rest t
  end.

Definition update_items (p : item -> bool) (set : item -> item) (t : tables)
    : result tables :=
  update_items_from p set [] (items t) t.

(** [UPDATE services SET ... WHERE p]: [enforce_service_deactivation] fires
    when [OLD.status IS DISTINCT FROM NEW.status]. *)
Fixpoint update_services_from (p : service -> bool) (set : service -> service)
    (done todo : list service) (t : tables) : result tables :=
  match todo with
  | [] => Accepted t
  | s :: rest =>
      if p s then
        and_then (if Bool.eqb (s_status s) (s_status (set s)) then Accepted (set s)
                  else validate_service_deactivation t s (set s)) (fun NEW =>
        update_services_from p set (done ++ [NEW]) rest
          (set_services t (done ++ NEW :: rest)))
      else update_services_from p set (done ++ [s]) rest t
  end.

Definition update_services (p : service -> bool) (set : service -> service)
    (t : tables) : result tables :=
  update_services_from p set [] (services t) t.

(** [UPDATE categories SET ... WHERE p]: [enforce_category_deactivation]
    fires when [OLD.status IS DISTINCT FROM NEW.status]. *)
Fixpoint update_categories_from (p : category -> bool) (set : category -> category)
    (done todo : list category) (t : tables) : result tables :=
  match todo with
  | [] => Accepted t
  | c :: rest =>
      if p c then
        and_then (if Bool.eqb (c_status c) (c_status (set c)) then Accepted (set c)
                  else validate_category_deactivation t c (set c)) (fun NEW =>
        update_categories_from p set (done ++ [NEW]) rest
          (set_categories t (done ++ NEW :: rest)))
      else update_categories_from p set (done ++ [c]) rest t
  end.

Definition update_categories (p : category -> bool) (set : category -> category)
    (t : tables) : result tables :=
  update_categories_from p set [] (categories t) t.

(** The statements on the catalog that the triggers guard. *)
Inductive statement :=
| INSERT_items (NEW : item)
| UPDATE_items (p : item -> bool) (set : item -> item)
| UPDATE_services (p : service -> bool) (set : service -> service)
| UPDATE_categories (p : category -> bool) (set : category -> category).

Definition execute (st : statement) (t : tables) : result tables :=
  match st with
  | INSERT_items NEW => insert_items NEW t
  | UPDATE_items p set => update_items p set t
  | UPDATE_services p set => update_services p set t
  | UPDATE_categories p set => update_categories p set t
  end.

End catalog.

(** The statement leaves the primary keys of [services] and [categories]
    as they are. *)
Definition keeps_ids (st : catalog.statement) : Prop :=
  match st with
  | catalog.UPDATE_services _ set => forall s, catalog.s_id (set s) = catalog.s_id s
  | catalog.UPDATE_categories _ set => forall c, catalog.c_id (set c) = catalog.c_id c
  | _ => True
  end.

(** Every active item is an item of a service that is active. *)
Definition active_items_in_active_services (t : catalog.tables) : Prop :=
  forall i, In i (catalog.items t) -> catalog.i_status i = true ->
            exists s, In s (catalog.services t)
                      /\ catalog.i_service_id i = Some (catalog.s_id s)
                      /\ catalog.s_status s = true.

(** Every active item is an item of a category that is active. *)
Definition active_items_in_active_categories (t : catalog.tables) : Prop :=
  forall i, In i (catalog.items t) -> catalog.i_status i = true ->
            exists c, In c (catalog.categories t)
                      /\ catalog.i_category_id i = Some (catalog.c_id c)
                      /\ catalog.c_status c = true.

(** The items of a category. *)
Definition items_of_category (l : list catalog.item) (category_id : uuid)
    : list catalog.item :=
  filter (fun i => sql_eq N.eqb (catalog.i_category_id i) (Some category_id)) l.

(** Every item has a category and no category has more than 3 items. *)
Definition categories_within_limit (t : catalog.tables) : Prop :=
  (forall i, In i (catalog.items t) -> catalog.i_category_id i <> None)
  /\ forall category_id,
       (List.length (items_of_category (catalog.items t) category_id) <= 3)%nat.

(** What an [UPDATE] of [items] that is accepted has made of a row: the row
    is as it was, or it is the new row, which has passed the triggers. *)
Definition item_updated (t : catalog.tables) (set : catalog.item -> catalog.item)
    (i i' : catalog.item) : Prop :=
  i' = i
  \/ (i' = set i
      /\ catalog.validate_category_status t i' = catalog.Accepted i'
      /\ catalog.validate_service_status t i' = catalog.Accepted i'
      /\ (catalog.i_category_id i <> None ->
          catalog.prevent_category_change i i' = catalog.Accepted i')
      /\ (catalog.i_service_id i <> None ->
          catalog.prevent_service_change i i' = catalog.Accepted i')
      /\ catalog.i_category_id i' <> None /\ catalog.i_service_id i' <> None).


(** A catalog with one service, one category and two items, and statements
    on it. *)
Definition shirts : catalog.item :=
  {| catalog.i_id := 1%N; catalog.i_category_id := Some 10%N;
     catalog.i_service_id := Some 100%N; catalog.i_name := "Shirts";
     catalog.i_status := true |}.

Definition trousers : catalog.item :=
  {| catalog.i_id := 2%N; catalog.i_category_id := Some 10%N;
     catalog.i_service_id := Some 100%N; catalog.i_name := "Trousers";
     catalog.i_status := true |}.

Definition jackets : catalog.item :=
  {| catalog.i_id := 3%N; catalog.i_category_id := Some 10%N;
     catalog.i_service_id := Some 100%N; catalog.i_name := "Jackets";
     catalog.i_status := true |}.

Definition small_catalog : catalog.tables :=
  {| catalog.services := [ {| catalog.s_id := 100%N; catalog.s_status := true |} ];
     catalog.categories :=
       [ {| catalog.c_id := 10%N; catalog.c_service_id := Some 100%N;
            catalog.c_status := true |} ];
     catalog.items := [ shirts; trousers ] |}.

Definition rename (name : string) (i : catalog.item) : catalog.item :=
  {| catalog.i_id := catalog.i_id i; catalog.i_category_id := catalog.i_category_id i;
     catalog.i_service_id := catalog.i_service_id i; catalog.i_name := name;
     catalog.i_status := catalog.i_status i |}.

Definition close_category (c : catalog.category) : catalog.category :=
  {| catalog.c_id := catalog.c_id c; catalog.c_service_id := catalog.c_service_id c;
     catalog.c_status := false |}.

Definition coats : catalog.item :=
  {| catalog.i_id := 4%N; catalog.i_category_id := Some 10%N;
     catalog.i_service_id := Some 100%N; catalog.i_name := "Coats";
     catalog.i_status := true |}.

Definition close_service (s : catalog.service) : catalog.service :=
  {| catalog.s_id := catalog.s_id s; catalog.s_status := false |}.

(** ** The default address of a user *)

Module addresses.

(** A row of [user_addresses], with the columns the trigger reads. *)
Record user_address := {
  a_id : uuid;
  a_user_id : option uuid;
  a_is_default : option bool
}.

Definition set_is_default (a : user_address) (v : option bool) : user_address :=
  {| a_id := a_id a; a_user_id := a_user_id a; a_is_default := v |}.

(** A condition of type boolean is true. *)
Definition is_true (b : option bool) : bool :=
  match b with Some true => true | _ => false end.

(** [ensure_single_default_address]: the table after the trigger function
    has run for [NEW], which it returns as it is. *)
Definition ensure_single_default_address (NEW : user_address)
    (user_addresses : list user_address) : list user_address :=
  if is_true (a_is_default NEW) then
    map (fun a => if sql_eq N.eqb (a_user_id a) (a_user_id NEW)
                     && negb (a_id a =? a_id NEW)%N
                  then set_is_default a (Some false) else a)
        user_addresses
  else user_addresses.

(** [INSERT INTO user_addresses VALUES (NEW)]:
    [ensure_single_default_address_trigger] fires before the row is stored
    [WHEN (NEW.is_default = true)]. *)
Definition insert_user_addresses (NEW : user_address)
    (user_addresses : list user_address) : list user_address :=
  (if sql_eq Bool.eqb (a_is_default NEW) (Some true)
   then ensure_single_default_address NEW user_addresses
   else user_addresses) ++ [NEW].

End addresses.

(** The default addresses of one user have one id. *)
Definition single_default (rows : list addresses.user_address) : Prop :=
  forall a b, In a rows -> In b rows ->
              sql_eq N.eqb (addresses.a_user_id a) (addresses.a_user_id b) = true ->
              addresses.a_is_default a = Some true ->
              addresses.a_is_default b = Some true ->
              addresses.a_id a = addresses.a_id b.

Definition home : addresses.user_address :=
  {| addresses.a_id := 1%N; addresses.a_user_id := Some 7%N;
     addresses.a_is_default := Some true |}.

Definition office : addresses.user_address :=
  {| addresses.a_id := 2%N; addresses.a_user_id := Some 7%N;
     addresses.a_is_default := Some true |}.

(** ** Facts about [ORDER BY ... LIMIT 1] *)

Section first_min_facts.

Context {A : Type} (lt : A -> A -> bool).

Lemma first_min_nil (l : list A) : first_min lt l = None <-> l = [].
Proof.
  destruct l as [|x t]; simpl.
  - tauto.
  - split; [|discriminate].
    destruct (first_min lt t) as [y|]; [destruct (lt y x)|]; discriminate.
Qed.

Lemma first_min_In (l : list A) (x : A) : first_min lt l = Some x -> In x l.
Proof.
  revert x; induction l as [|a t IH]; simpl; intros x H.
  - discriminate.
  - destruct (first_min lt t) as [y|].
    + destruct (lt y a); inversion H; subst; auto.
    + inversion H; auto.
Qed.

Hypothesis lt_asym : forall a b, lt a b = true -> lt b a = false.
Hypothesis le_trans : forall a b c, lt b a = false -> lt c b = false -> lt c a = false.

(** The row that is kept comes first among the rows with the least key:
    every earlier row has a strictly larger key, and no row has a smaller one. *)
Lemma first_min_split (l : list A) (x : A) :
  first_min lt l = Some x ->
  exists pre post,
    l = pre ++ x :: post
    /\ (forall y, In y pre -> lt x y = true)
    /\ (forall y, In y post -> lt y x = false).
Proof.
  revert x; induction l as [|a t IH]; simpl; intros x H.
  - discriminate.
  - destruct (first_min lt t) as [y|] eqn:E.
    + destruct (IH y eq_refl) as (pre & post & -> & Hpre & Hpost).
      destruct (lt y a) eqn:Hya; inversion H; subst; clear H.
      * exists (a :: pre), post. split; [reflexivity|]. split; [|exact Hpost].
        intros z [<-|Hz]; auto.
      * exists [], (pre ++ y :: post). split; [reflexivity|].
        split; [intros z []|].
        intros z Hz. apply in_app_or in Hz. destruct Hz as [Hz|[<-|Hz]].
        -- apply le_trans with y; [exact Hya|]. apply lt_asym. auto.
        -- exact Hya.
        -- apply le_trans with y; auto.
    + apply first_min_nil in E. subst t. inversion H; subst.
      exists [], []. split; [reflexivity|]. split; intros z [].
Qed.

End first_min_facts.

Lemma Rltb_true (x y : R) : Rltb x y = true <-> (x < y)%R.
Proof. unfold Rltb. destruct (Rlt_dec x y); split; auto; discriminate. Qed.

Lemma Rltb_false (x y : R) : Rltb x y = false <-> (y <= x)%R.
Proof.
  unfold Rltb. destruct (Rlt_dec x y); split; intros; try discriminate; try lra;
    reflexivity.
Qed.

Lemma Rltb_irrefl (x : R) : Rltb x x = false.
Proof. apply Rltb_false. lra. Qed.

Lemma sql_le_true (a b : option Z) :
  sql_le a b = true <-> exists x y, a = Some x /\ b = Some y /\ x <= y.
Proof.
  destruct a as [x|], b as [y|]; simpl; split.
  - intros H. exists x, y. repeat split. apply Z.leb_le. exact H.
  - intros (x' & y' & Hx & Hy & Hle). inversion Hx; inversion Hy; subst.
    apply Z.leb_le. exact Hle.
  - discriminate.
  - intros (x' & y' & _ & Hy & _). discriminate.
  - discriminate.
  - intros (x' & y' & Hx & _). discriminate.
  - discriminate.
  - intros (x' & y' & Hx & _). discriminate.
Qed.

(** ** The facility locator *)

Lemma open_facilities_In (db : database) (t : option time) (f : facility) :
  In f (open_facilities db t) <->
  In f (facilities db) /\ f_status f = true
  /\ exists o c x, f_opening_hour f = Some o /\ f_close_hour f = Some c
                   /\ t = Some x /\ o <= x <= c.
Proof.
  unfold open_facilities. rewrite filter_In.
  rewrite !andb_true_iff, !sql_le_true. split.
  - intros (Hin & (Hs & (o & x & Ho & Hx & Hox)) & (x' & c & Hx' & Hc & Hxc)).
    rewrite Hx in Hx'. inversion Hx'; subst x'.
    split; [exact Hin|]. split; [exact Hs|]. exists o, c, x. auto.
  - intros (Hin & Hs & o & c & x & Ho & Hc & Hx & Hox & Hxc).
    split; [exact Hin|]. split; [split; [exact Hs|]|].
    + exists o, x. auto.
    + exists x, c. auto.
Qed.

(** C5 (amended): the facility that is found is active and open at the time
    of day of the delivery, no open active facility is nearer, and among
    the nearest ones it is the first of the scan of the table (the id plays
    no part); without an open active facility the result is NULL. *)
Theorem find_nearest_facility_nearest_open (db : database) (order_lat order_lon : R)
    (delivery_time : option timestamptz) :
  let dist f := calculate_distance order_lat order_lon (f_latitude f) (f_longitude f) in
  match find_nearest_facility db order_lat order_lon delivery_time with
  | None => open_facilities db (time_of delivery_time) = []
  | Some id =>
      exists f pre post,
        f_id f = id
        /\ open_facilities db (time_of delivery_time) = pre ++ f :: post
        /\ In f (facilities db) /\ f_status f = true
        /\ (exists o c x, f_opening_hour f = Some o /\ f_close_hour f = Some c
                          /\ time_of delivery_time = Some x /\ o <= x <= c)
        /\ (forall g, In g pre -> (dist f < dist g)%R)
        /\ (forall g, In g post -> (dist f <= dist g)%R)
  end.
Proof.
  intros dist. unfold find_nearest_facility.
  set (lt := fun f g : facility => Rltb _ _).
  destruct (first_min lt (open_facilities db (time_of delivery_time))) as [f|] eqn:E;
    simpl.
  - assert (Hin : In f (open_facilities db (time_of delivery_time)))
      by (eapply first_min_In; eauto).
    apply open_facilities_In in Hin. destruct Hin as (Hin & Hs & Hopen).
    apply first_min_split in E.
    + destruct E as (pre & post & Hsplit & Hpre & Hpost).
      exists f, pre, post. repeat (split; [solve [auto]|]). split.
      * intros g Hg. apply Rltb_true. apply (Hpre g Hg).
      * intros g Hg. apply Rltb_false. apply (Hpost g Hg).
    + intros a b H. apply Rltb_true in H. apply Rltb_false. lra.
    + unfold lt. intros a b c H1 H2. apply Rltb_false in H1, H2.
      apply Rltb_false. lra.
  - apply first_min_nil in E. exact E.
Qed.

Lemma twin_facilities_nearest :
  find_nearest_facility Examples.twin_facilities 0 0 (Examples.at_time 1 43200)
  = Some 2%N.
Proof.
  unfold find_nearest_facility. simpl.
  rewrite Rltb_irrefl. reflexivity.
Qed.

(** Two open facilities at the same distance: the first row of the table is
    returned, which has the higher id. *)
Lemma lowest_id_among_nearest_fails : ~ lowest_id_among_nearest.
Proof.
  intros H.
  destruct (H Examples.twin_facilities 0%R 0%R (Examples.at_time 1 43200))
    as (f & Hf & Hin & _ & Htie).
  - simpl. discriminate.
  - rewrite twin_facilities_nearest in Hf. inversion Hf as [Hid].
    specialize (Htie (Examples.day_facility 1%N)).
    simpl in Htie, Hin.
    assert (Hle : (f_id f <= 1)%N).
    { apply Htie; [auto|].
      destruct Hin as [<-|[<-|[]]]; reflexivity. }
    rewrite <- Hid in Hle. lia.
Qed.


(** [assign_nearest_facility] never consults the opening hours: whatever the
    order, it stores the first active facility of the scan. *)
Lemma assign_nearest_facility_first_active (db : database) (NEW : order) :
  o_facility_id (assign_nearest_facility db NEW)
  = select_into (fun f => Some (f_id f)) (filter f_status (facilities db)).
Proof. reflexivity. Qed.


(** The later definition of the trigger function raises in that case. *)
Lemma schema_update_assign_nearest_facility_raises (db : database) (NEW : order) :
  open_facilities db (time_of (o_estimated_delivery NEW)) = [] ->
  schema_update.assign_nearest_facility NEW db = Raise NoFacilityAvailable.
Proof.
  intros H. unfold schema_update.assign_nearest_facility, bind, get.
  rewrite H. reflexivity.
Qed.

(** ** The guard on the driver of an order *)

Lemma sql_eq_N_true (a b : option N) :
  sql_eq N.eqb a b = true <-> exists x, a = Some x /\ b = Some x.
Proof.
  destruct a as [x|], b as [y|]; simpl; split; try discriminate.
  - intros H. apply N.eqb_eq in H. subst. eauto.
  - intros (z & Hx & Hy). inversion Hx; inversion Hy; subst. apply N.eqb_refl.
  - intros (z & _ & Hy). discriminate.
  - intros (z & Hx & _). discriminate.
  - intros (z & Hx & _). discriminate.
Qed.

Lemma sql_eq_Z_true (a b : option Z) :
  sql_eq Z.eqb a b = true <-> exists x, a = Some x /\ b = Some x.
Proof.
  destruct a as [x|], b as [y|]; simpl; split; try discriminate.
  - intros H. apply Z.eqb_eq in H. subst. eauto.
  - intros (z & Hx & Hy). inversion Hx; inversion Hy; subst. apply Z.eqb_refl.
  - intros (z & _ & Hy). discriminate.
  - intros (z & Hx & _). discriminate.
  - intros (z & Hx & _). discriminate.
Qed.

Lemma driver_has_other_order_dec (db : database) (NEW : order) :
  is_not_null (o_assigned_driver_id NEW)
  && existsb (fun o =>
                negb (o_id o =? o_id NEW)%N
                && sql_eq N.eqb (o_assigned_driver_id o) (o_assigned_driver_id NEW)
                && sql_eq Z.eqb (date_of (o_estimated_delivery o))
                                (date_of (o_estimated_delivery NEW)))
             (orders db) = true
  <-> driver_has_other_order db NEW.
Proof.
  rewrite andb_true_iff, existsb_exists. split.
  - intros (_ & o & Hin & H).
    rewrite !andb_true_iff, negb_true_iff, N.eqb_neq in H.
    destruct H as ((Hid & Hd) & Hday).
    apply sql_eq_N_true in Hd. destruct Hd as (d & Hd1 & Hd2).
    apply sql_eq_Z_true in Hday. destruct Hday as (day & Hday1 & Hday2).
    exists o, d, day. auto 10.
  - intros (o & d & day & Hin & Hid & Hd1 & Hd2 & Hday1 & Hday2). split.
    + rewrite Hd2. reflexivity.
    + exists o. split; [exact Hin|].
      rewrite !andb_true_iff, negb_true_iff, N.eqb_neq.
      split; [split; [exact Hid|]|].
      * apply sql_eq_N_true. eauto.
      * apply sql_eq_Z_true. eauto.
Qed.

(** The guard rejects the new driver of an order exactly when another order
    has that driver for the same delivery date; packages are not consulted,
    and otherwise the row passes unchanged. *)
Lemma prevent_duplicate_driver_assignment_spec (db : database) (NEW : order) :
  (driver_has_other_order db NEW ->
   prevent_duplicate_driver_assignment NEW db
   = Raise (DriverDoubleBooked (o_id NEW) (o_assigned_driver_id NEW)))
  /\ (~ driver_has_other_order db NEW ->
      prevent_duplicate_driver_assignment NEW db = Ok (NEW, db)).
Proof.
  unfold prevent_duplicate_driver_assignment, bind, get.
  split; intros H.
  - apply driver_has_other_order_dec in H. rewrite H. reflexivity.
  - rewrite <- driver_has_other_order_dec in H.
    apply not_true_is_false in H. rewrite H. reflexivity.
Qed.

(** C9, at driver 7 and order 11 of day 1: where the driver has no package
    and another order of day 1, the guard rejects the driver; where the
    driver has an active package for day 1 that is not the package of the
    order, and no order, the guard lets the driver through. *)
Theorem double_booking_guard_checks_orders :
  (driver_packages driver_with_order = []
   /\ prevent_duplicate_driver_assignment order_for_booked_driver driver_with_order
      = Raise (DriverDoubleBooked 11%N (Some 7%N)))
  /\ (driver_has_other_active_package booked_driver order_for_booked_driver
      /\ prevent_duplicate_driver_assignment order_for_booked_driver booked_driver
         = Ok (order_for_booked_driver, booked_driver)).
Proof.
  split; split; try reflexivity.
  exists package_of_driver. simpl. repeat split; auto; discriminate.
Qed.

(** The statement about packages does not hold of the guard. *)
Lemma double_booking_guard_fails : ~ double_booking_guard.
Proof.
  intros H.
  destruct (H booked_driver order_for_booked_driver) as [Hrej _].
  destruct Hrej as [e He].
  - exists package_of_driver. simpl. repeat split; auto; discriminate.
  - discriminate He.
Qed.

(** The batch run meets the guard: the one driver of a facility with two
    orders for the day gets the first, the second is rejected, and the
    facility ends with an error and without a package. *)
Lemma one_driver_two_orders_run (random : nat -> R) (fuel : nat) :
  generate_driver_packages random fuel 1 one_driver_two_orders
  = Ok (tt, set_package_logs one_driver_two_orders
              [generation_error (day_facility 1%N)
                 (DriverDoubleBooked 12%N (Some 7%N))]).
Proof. lazy. reflexivity. Qed.


(** ** Reasoning about statements *)

Lemma bind_Ok {A B : Type} (m : M A) (k : A -> M B) (db db' : database) (b : B) :
  bind m k db = Ok (b, db') <->
  exists a db1, m db = Ok (a, db1) /\ k a db1 = Ok (b, db').
Proof.
  unfold bind. split.
  - destruct (m db) as [[a db1]| |]; try discriminate. eauto.
  - intros (a & db1 & -> & H). exact H.
Qed.

Lemma ret_Ok {A : Type} (a b : A) (db db' : database) :
  ret a db = Ok (b, db') <-> a = b /\ db = db'.
Proof. unfold ret. split; [intros H; inversion H; auto | intros [-> ->]; reflexivity]. Qed.

Lemma bind_get {B : Type} (k : database -> M B) (db : database) :
  bind get k db = k db db.
Proof. reflexivity. Qed.

Lemma bind_modify {B : Type} (f : database -> database) (k : unit -> M B)
    (db : database) : bind (modify f) k db = k tt (f db).
Proof. reflexivity. Qed.

Lemma bind_ret {A B : Type} (a : A) (k : A -> M B) (db : database) :
  bind (ret a) k db = k a db.
Proof. reflexivity. Qed.

Lemma bind_Raise {A B : Type} (m : M A) (k : A -> M B) (db : database) (e : exn) :
  m db = Raise e -> bind m k db = Raise e.
Proof. unfold bind. intros ->. reflexivity. Qed.

Lemma bind_Ok_eq {A B : Type} (m : M A) (k : A -> M B) (db db1 : database) (a : A) :
  m db = Ok (a, db1) -> bind m k db = k a db1.
Proof. unfold bind. intros ->. reflexivity. Qed.

(** Decompose a successful run of a statement along its binds. *)
Ltac run_inv H :=
  lazymatch type of H with
  | bind _ _ _ = Ok _ =>
      let a := fresh "a" in
      let db1 := fresh "db" in
      let H1 := fresh "Hrun" in
      apply bind_Ok in H; destruct H as (a & db1 & H1 & H);
      run_inv H1; cbv beta in H; cbn [is_null is_not_null andb negb] in H;
      run_inv H
  | ret _ _ = Ok _ => apply ret_Ok in H; destruct H as [? ?]; subst
  | get _ = Ok _ => unfold get in H; inversion H; subst; clear H
  | modify _ _ = Ok _ => unfold modify in H; inversion H; subst; clear H
  | raise _ _ = Ok _ => discriminate H
  | Raise _ = Ok _ => discriminate H
  | OutOfFuel = Ok _ => discriminate H
  | _ => idtac
  end.

Section keeps_facts.

Context (R : database -> database -> Prop) {HR : PreOrder R}.

Lemma keeps_ret {A : Type} (a : A) : keeps R (ret a).
Proof. intros db b db' H. run_inv H. reflexivity. Qed.

Lemma keeps_get : keeps R get.
Proof. intros db b db' H. run_inv H. reflexivity. Qed.

Lemma keeps_raise {A : Type} (e : exn) : keeps R (@raise A e).
Proof. intros db b db' H. discriminate H. Qed.

Lemma keeps_bind {A B : Type} (m : M A) (k : A -> M B) :
  keeps R m -> (forall a, keeps R (k a)) -> keeps R (bind m k).
Proof.
  intros Hm Hk db b db' H. apply bind_Ok in H. destruct H as (a & db1 & H1 & H2).
  transitivity db1; [eapply Hm | eapply Hk]; eauto.
Qed.

Lemma keeps_modify (f : database -> database) :
  (forall db, R db (f db)) -> keeps R (modify f).
Proof. intros Hf db b db' H. run_inv H. apply Hf. Qed.

Lemma keeps_for_each {A : Type} (l : list A) (body : A -> M unit) :
  (forall x, In x l -> keeps R (body x)) -> keeps R (for_each l body).
Proof.
  induction l as [|x t IH]; simpl; intros Hb.
  - apply keeps_ret.
  - apply keeps_bind; [apply Hb; auto|]. intros _. apply IH. auto.
Qed.

Lemma keeps_try_catch {A : Type} (body : M A) (handler : exn -> M A) :
  keeps R body -> (forall e, keeps R (handler e)) -> keeps R (try_catch body handler).
Proof.
  intros Hb Hh db a db' H. unfold try_catch in H.
  destruct (body db) as [[a1 db1]|e|] eqn:E; try discriminate.
  - inversion H; subst. eapply Hb; eauto.
  - eapply Hh; eauto.
Qed.

End keeps_facts.

Lemma keeps_weaken {A : Type} (R S : database -> database -> Prop) (m : M A) :
  (forall db db', R db db' -> S db db') -> keeps R m -> keeps S m.
Proof. intros HRS Hm db a db' H. apply HRS. eapply Hm; eauto. Qed.

(** Apply a fact about [keeps] and find the preorder it needs. *)
Ltac kapply L := apply L; try typeclasses eauto.

#[export] Instance maintains_PreOrder (I : database -> Prop) : PreOrder (maintains I).
Proof. split; unfold maintains; [intros x; auto | intros x y z; auto]. Qed.

#[export] Instance orders_only_PreOrder : PreOrder orders_only.
Proof.
  split; unfold orders_only.
  - intros []; reflexivity.
  - intros x y z -> ->. reflexivity.
Qed.

#[export] Instance same_assignments_PreOrder : PreOrder same_assignments.
Proof.
  split.
  - intros x. split; reflexivity.
  - intros x y z [] []. split; congruence.
Qed.

Lemma orders_only_same_assignments (db db' : database) :
  orders_only db db' -> same_assignments db db'.
Proof. intros ->. split; reflexivity. Qed.

(** *** The row triggers of [orders] *)

Lemma validate_driver_status_Ok (NEW r : order) (db db' : database) :
  white_bar.validate_driver_status NEW db = Ok (r, db') -> r = NEW /\ db' = db.
Proof.
  unfold white_bar.validate_driver_status. intros H. run_inv H.
  destruct (is_not_null _); [destruct (negb _)|]; run_inv H; auto.
Qed.

Lemma prevent_duplicate_driver_assignment_Ok (NEW r : order) (db db' : database) :
  prevent_duplicate_driver_assignment NEW db = Ok (r, db') -> r = NEW /\ db' = db.
Proof.
  unfold prevent_duplicate_driver_assignment. intros H. run_inv H.
  destruct (_ && _); run_inv H; auto.
Qed.

Lemma orders_before_update_Ok (NEW r : order) (db db' : database) :
  orders_before_update_of_assigned_driver_id NEW db = Ok (r, db') -> r = NEW /\ db' = db.
Proof.
  unfold orders_before_update_of_assigned_driver_id. intros H. run_inv H.
  apply validate_driver_status_Ok in Hrun. destruct Hrun as [-> ->].
  apply prevent_duplicate_driver_assignment_Ok in H. exact H.
Qed.

Lemma update_orders_from_only (p : order -> bool) (v : option uuid)
    (done todo : list order) : keeps orders_only (update_orders_from p v done todo).
Proof.
  revert done. induction todo as [|o rest IH]; intros done; simpl.
  - kapply keeps_ret.
  - destruct (p o); [|apply IH].
    kapply keeps_bind.
    + intros db a db' H. apply orders_before_update_Ok in H. destruct H as [_ ->].
      reflexivity.
    + intros NEW. kapply keeps_bind; [|intros _; apply IH].
      kapply keeps_modify. intros db. reflexivity.
Qed.

Lemma update_orders_assigned_driver_id_only (p : order -> bool) (v : option uuid) :
  keeps orders_only (update_orders_assigned_driver_id p v).
Proof.
  unfold update_orders_assigned_driver_id.
  kapply keeps_bind; [kapply keeps_get|]. intros db. apply update_orders_from_only.
Qed.

(** *** The row trigger of [package_orders] *)

Lemma validate_order_assignment_Ok (NEW r : package_order) (db db' : database) :
  validate_order_assignment NEW db = Ok (r, db') ->
  r = NEW /\ orders_only db db'
  /\ existsb (fun po => sql_eq N.eqb (po_order_id po) (po_order_id NEW)
                        && other_package po NEW)
             (package_orders db) = false.
Proof.
  unfold validate_order_assignment. intros H. run_inv H.
  destruct (existsb _ (package_orders _)) eqn:E1; [discriminate H|].
  destruct (existsb _ (orders _)); [discriminate H|].
  run_inv H. split; [reflexivity|]. split; [|reflexivity].
  eapply update_orders_assigned_driver_id_only; eauto.
Qed.

Lemma check_unique_Ok (others : list package_order) (NEW : package_order)
    (db db' : database) (u : unit) :
  check_unique others NEW db = Ok (u, db') ->
  db' = db
  /\ forall po, In po others -> sql_eq N.eqb (po_order_id po) (po_order_id NEW) = false.
Proof.
  unfold check_unique. intros H.
  destruct (existsb _ others); [discriminate H|].
  destruct (existsb _ others) eqn:E; [discriminate H|].
  run_inv H. split; [reflexivity|].
  intros po Hin.
  destruct (sql_eq N.eqb (po_order_id po) (po_order_id NEW)) eqn:E2; [|reflexivity].
  apply Bool.not_true_iff_false in E. exfalso. apply E.
  apply existsb_exists. eauto.
Qed.

(** *** Statements that do not depend on fuel *)

Lemma total_ret {A : Type} (a : A) : total (ret a).
Proof. intros db. discriminate. Qed.

Lemma total_get : total get.
Proof. intros db. discriminate. Qed.

Lemma total_raise {A : Type} (e : exn) : total (@raise A e).
Proof. intros db. discriminate. Qed.

Lemma total_modify (f : database -> database) : total (modify f).
Proof. intros db. discriminate. Qed.

Lemma total_bind {A B : Type} (m : M A) (k : A -> M B) :
  total m -> (forall a, total (k a)) -> total (bind m k).
Proof.
  intros Hm Hk db. unfold bind. specialize (Hm db).
  destruct (m db) as [[a db1]|e|]; [apply Hk|discriminate|congruence].
Qed.

Lemma total_for_each {A : Type} (l : list A) (body : A -> M unit) :
  (forall x, total (body x)) -> total (for_each l body).
Proof.
  intros Hb. induction l as [|x t IH]; simpl.
  - apply total_ret.
  - apply total_bind; auto.
Qed.

Lemma total_try_catch {A : Type} (body : M A) (handler : exn -> M A) :
  total body -> (forall e, total (handler e)) -> total (try_catch body handler).
Proof.
  intros Hb Hh db. unfold try_catch. specialize (Hb db).
  destruct (body db) as [[a db1]|e|]; [discriminate|apply Hh|congruence].
Qed.

(** Go through a statement along its binds and branches. *)
Ltac total_step :=
  first [ apply total_ret | apply total_get | apply total_raise | apply total_modify
        | apply total_bind | apply total_for_each | apply total_try_catch
        | match goal with
          | |- total (if ?b then _ else _) => destruct b
          | |- total (match ?x with _ => _ end) => destruct x
          | |- forall _, _ => intro
          end ].

Lemma total_insert_package_logs (p : option uuid) (ev : string)
    (d : list (string * jsonb)) : total (insert_package_logs p ev d).
Proof. apply total_modify. Qed.








Lemma total_insert_driver_packages (driver_id facility_id : option uuid)
    (package_date : option date) (start_time end_time : time) (status : package_status) :
  total (crystal_ocean.insert_driver_packages driver_id facility_id package_date
           start_time end_time status).
Proof.
  unfold crystal_ocean.insert_driver_packages, crystal_ocean.notify_unassigned_packages.
  repeat first [ apply total_insert_package_logs | total_step ].
Qed.


(** ** One assignment per order *)




Lemma sql_eq_Some_false (x : option uuid) (o : uuid) :
  x <> Some o -> sql_eq N.eqb x (Some o) = false.
Proof.
  destruct x as [y|]; simpl; [|reflexivity]. intros H.
  apply N.eqb_neq. congruence.
Qed.



#[export] Instance keys_same_PreOrder : PreOrder keys_same.
Proof. split; unfold keys_same; [intros x; reflexivity | intros x y z; congruence]. Qed.



(** What a successful [INSERT INTO package_orders] does. *)
Lemma insert_package_orders_Ok (package_id order_id : option uuid) (seq : Z)
    (arr : option time) (st : stop_status) (db db' : database) (u : unit) :
  insert_package_orders package_id order_id seq arr st db = Ok (u, db') ->
  package_orders db'
  = package_orders db
    ++ [{| po_id := next_uuid db; po_package_id := package_id;
           po_order_id := order_id; po_sequence_number := seq;
           po_estimated_arrival := arr; po_status := st |}]
  /\ next_uuid db' = N.succ (next_uuid db)
  /\ driver_packages db' = driver_packages db
  /\ package_logs db' = package_logs db
  /\ facilities db' = facilities db
  /\ (forall po, In po (package_orders db) ->
                 sql_eq N.eqb (po_order_id po) order_id = false).
Proof.
  unfold insert_package_orders. intros H. run_inv H.
  match goal with
  | Hv : validate_order_assignment _ _ = Ok _ |- _ =>
      apply validate_order_assignment_Ok in Hv; destruct Hv as (-> & Hoo & _)
  end.
  match goal with
  | Hc : check_unique _ _ _ = Ok _ |- _ =>
      apply check_unique_Ok in Hc; destruct Hc as [-> Hfree]
  end.
  rewrite Hoo in *. simpl in *. repeat split; auto.
Qed.








(** Go through a statement along its binds and branches. *)
Ltac keeps_step :=
  first [ kapply keeps_ret | kapply keeps_get | kapply keeps_raise
        | kapply keeps_bind | kapply keeps_for_each | kapply keeps_try_catch
        | match goal with
          | |- keeps _ (fun _ => OutOfFuel) =>
              let Hx := fresh in intros ? ? ? Hx; discriminate Hx
          | |- keeps _ (if ?b then _ else _) => destruct b
          | |- keeps _ (match ?x with _ => _ end) => destruct x
          | |- forall _, _ => intro
          end ].

(** *** Statements that leave the assignments as they are *)

Lemma insert_package_logs_same_rows (p : option uuid) (ev : string)
    (d : list (string * jsonb)) (db db' : database) (u : unit) :
  insert_package_logs p ev d db = Ok (u, db') ->
  db' = set_package_logs db
          (package_logs db ++
           [{| pl_package_id := p; pl_event_type := ev; pl_details := d |}]).
Proof. unfold insert_package_logs. intros H. run_inv H. reflexivity. Qed.

Lemma insert_driver_packages_Ok (driver_id facility_id : option uuid)
    (package_date : option date) (start_time end_time : time) (status : package_status)
    (db db' : database) (id : uuid) :
  crystal_ocean.insert_driver_packages driver_id facility_id package_date
    start_time end_time status db = Ok (id, db') ->
  exists day,
    package_date = Some day
    /\ id = next_uuid db
    /\ next_uuid db' = N.succ (next_uuid db)
    /\ driver_packages db'
       = driver_packages db
         ++ [{| dp_id := next_uuid db; dp_driver_id := driver_id;
                dp_facility_id := facility_id; dp_package_date := day;
                dp_start_time := start_time; dp_end_time := end_time;
                dp_status := status; dp_created_at := now db |}]
    /\ package_orders db' = package_orders db
    /\ orders db' = orders db
    /\ facilities db' = facilities db
    /\ drivers db' = drivers db
    /\ facility_drivers db' = facility_drivers db
    /\ package_logs db'
       = package_logs db
         ++ (if is_null driver_id
             then [{| pl_package_id := Some (next_uuid db);
                      pl_event_type := "unassigned_package_alert";
                      pl_details := [("facility_id"%string, j_uuid facility_id);
                                     ("package_date"%string, j_date day)] |}]
             else []).
Proof.
  unfold crystal_ocean.insert_driver_packages. intros H.
  destruct package_date as [day|]; [|discriminate H].
  exists day. run_inv H. simpl in *.
  destruct (is_null driver_id).
  - unfold crystal_ocean.notify_unassigned_packages in *.
    match goal with
    | Hl : insert_package_logs _ _ _ _ = Ok _ |- _ =>
        apply insert_package_logs_same_rows in Hl; subst
    end.
    simpl. repeat split; reflexivity.
  - match goal with Hr : ret _ _ = Ok _ |- _ => run_inv Hr end.
    simpl. rewrite app_nil_r. repeat split; reflexivity.
Qed.




(** An [UPDATE] that leaves [package_id] and [order_id] as they are. *)
Lemma update_package_orders_from_same (p : package_order -> bool)
    (set : package_order -> package_order) (done todo : list package_order)
    (db db' : database) (u : unit) :
  (forall po, po_key (set po) = po_key po) ->
  package_orders db = done ++ todo ->
  update_package_orders_from p set done todo db = Ok (u, db') ->
  same_assignments db db'.
Proof.
  intros Hset. revert done db.
  induction todo as [|po rest IH]; intros done db Hpo H; simpl in H.
  - run_inv H. reflexivity.
  - destruct (p po).
    + run_inv H.
      match goal with
      | Hv : validate_order_assignment _ _ = Ok _ |- _ =>
          apply validate_order_assignment_Ok in Hv; destruct Hv as (-> & Hoo & _)
      end.
      match goal with
      | Hc : check_unique _ _ _ = Ok _ |- _ =>
          apply check_unique_Ok in Hc; destruct Hc as [-> _]
      end.
      etransitivity; [|eapply IH; [|exact H]].
      * rewrite Hoo. split; simpl; try reflexivity.
        rewrite Hpo, !map_app. simpl. rewrite Hset. reflexivity.
      * simpl. rewrite <- app_assoc. reflexivity.
    + eapply IH; [|exact H]. rewrite <- app_assoc. exact Hpo.
Qed.

Lemma update_sequence_number_same (p : package_order -> bool) (n : Z) :
  keeps same_assignments
        (update_package_orders p (fun po => set_sequence_number po n)).
Proof.
  intros db u db' H. unfold update_package_orders in H. run_inv H.
  eapply update_package_orders_from_same; [| |exact H]; reflexivity.
Qed.

Lemma optimize_route_loop_same (random : nat -> R) (fuel : nat) (package_id : uuid)
    (current : option (R * R)) (sequence : Z) :
  keeps same_assignments
        (crystal_ocean.optimize_route_loop random fuel package_id current sequence).
Proof.
  revert sequence. induction fuel as [|fuel IH]; intros sequence; simpl.
  - repeat keeps_step.
  - repeat first [ apply IH | apply update_sequence_number_same | keeps_step ].
    kapply keeps_modify. intros db. split; reflexivity.
Qed.

Lemma optimize_route_same (random : nat -> R) (fuel : nat) (package_id : uuid) :
  keeps same_assignments (crystal_ocean.optimize_route random fuel package_id).
Proof.
  unfold crystal_ocean.optimize_route.
  repeat first [ apply optimize_route_loop_same | keeps_step ].
Qed.


(** *** The engine keeps one assignment per order *)





(** *** The states that statements on [package_orders] can reach *)





(** ** The single-order path, step by step *)



(** ** The size of a package *)

Lemma count_package_orders_refs (db : database) (p : uuid) :
  count_package_orders db p = count_refs (map po_package_id (package_orders db)) p.
Proof.
  unfold count_package_orders, count_refs.
  induction (package_orders db) as [|a t IH]; simpl; [reflexivity|].
  destruct (sql_eq N.eqb (po_package_id a) (Some p)); simpl; auto.
Qed.

Lemma count_refs_app (l1 l2 : list (option uuid)) (p : uuid) :
  count_refs (l1 ++ l2) p = (count_refs l1 p + count_refs l2 p)%nat.
Proof. unfold count_refs. rewrite filter_app, length_app. reflexivity. Qed.

Lemma count_refs_le_length (l : list (option uuid)) (p : uuid) :
  (count_refs l p <= List.length l)%nat.
Proof. unfold count_refs. apply filter_length_le. Qed.

Lemma count_refs_absent (l : list (option uuid)) (p : uuid) :
  ~ In (Some p) l -> count_refs l p = 0%nat.
Proof.
  unfold count_refs. induction l as [|a t IH]; simpl; intros H; [reflexivity|].
  destruct a as [q|]; simpl.
  - destruct (N.eqb_spec q p) as [->|Hne].
    + exfalso. apply H. left. reflexivity.
    + apply IH. intros Hin. apply H. right. exact Hin.
  - apply IH. intros Hin. apply H. right. exact Hin.
Qed.

Lemma count_refs_other (l : list (option uuid)) (p q : uuid) :
  (forall x, In x l -> x = Some q) -> p <> q -> count_refs l p = 0%nat.
Proof.
  intros Hall Hne. apply count_refs_absent. intros Hin.
  apply Hall in Hin. inversion Hin. contradiction.
Qed.

Lemma keys_package_refs (l1 l2 : list package_order) :
  map po_key l1 = map po_key l2 -> map po_package_id l1 = map po_package_id l2.
Proof.
  intros H. apply (f_equal (map fst)) in H. rewrite !map_map in H. exact H.
Qed.

Lemma same_assignments_invariant (db db' : database) :
  same_assignments db db' -> maintains engine_invariant db db'.
Proof.
  intros [Hk Hp _ Hu _] [Hcap [Hr Hd]].
  apply keys_package_refs in Hk. split; [|split].
  - intros p. rewrite count_package_orders_refs, Hk, <- count_package_orders_refs.
    apply Hcap.
  - intros p. rewrite Hk, Hu. apply Hr.
  - intros dp. rewrite Hp, Hu. apply Hd.
Qed.

(** Rows for one package at the end of the table. *)
Lemma invariant_after_rows (db db' : database) (pid : uuid) (added : list package_order) :
  engine_invariant db ->
  package_orders db' = package_orders db ++ added ->
  (forall po, In po added -> po_package_id po = Some pid) ->
  (count_package_orders db pid + List.length added <= MAX_PACKAGE_SIZE)%nat ->
  (pid < next_uuid db')%N ->
  (next_uuid db <= next_uuid db')%N ->
  (forall dp, In dp (driver_packages db') -> (dp_id dp < next_uuid db')%N) ->
  engine_invariant db'.
Proof.
  intros [Hcap [Hr Hd]] Hpo Hadded Hroom Hpid Hnext Hdps.
  assert (Hrefs : forall x, In x (map po_package_id added) -> x = Some pid).
  { intros x Hx. apply in_map_iff in Hx. destruct Hx as (po & <- & Hin). auto. }
  split; [|split].
  - intros p. rewrite count_package_orders_refs, Hpo, map_app, count_refs_app.
    rewrite <- count_package_orders_refs.
    destruct (N.eq_dec p pid) as [->|Hne].
    + pose proof (count_refs_le_length (map po_package_id added) pid) as Hle.
      rewrite length_map in Hle. lia.
    + rewrite (count_refs_other _ p pid Hrefs Hne). specialize (Hcap p). lia.
  - intros p. rewrite Hpo, map_app, in_app_iff. intros [Hin|Hin].
    + specialize (Hr p Hin). lia.
    + apply Hrefs in Hin. inversion Hin. subst. lia.
  - exact Hdps.
Qed.

(** *** The package creation cycle of the batch path *)

Lemma insert_each_order_Ok (pid : uuid) (l : list order) (db db' : database) (u : unit) :
  for_each l (fun o => insert_package_orders (Some pid) (Some (o_id o)) 0 None
                         stop_pending) db = Ok (u, db') ->
  exists added,
    package_orders db' = package_orders db ++ added
    /\ List.length added = List.length l
    /\ (forall po, In po added -> po_package_id po = Some pid)
    /\ (next_uuid db <= next_uuid db')%N
    /\ driver_packages db' = driver_packages db
    /\ package_logs db' = package_logs db.
Proof.
  revert db. induction l as [|o rest IH]; intros db H; simpl in H.
  - run_inv H. exists []. rewrite app_nil_r. repeat split; auto; try lia.
    intros po [].
  - run_inv H.
    match goal with
    | Hi : insert_package_orders _ _ _ _ _ _ = Ok _ |- _ =>
        apply insert_package_orders_Ok in Hi;
        destruct Hi as (Hpo & Hnext & Hdps & Hlogs & _ & _)
    end.
    apply IH in H. destruct H as (added & Hpo' & Hlen & Hall & Hn & Hd & Hl).
    eexists (_ :: added). rewrite Hpo', Hpo, <- app_assoc. simpl.
    split; [reflexivity|]. split; [congruence|]. split; [|split; [lia|split; congruence]].
    intros po [<-|Hin]; auto.
Qed.

Lemma assign_orders_Ok (pid facility_id : uuid) (shift_date : date)
    (db db' : database) (u : unit) :
  rough_pine.assign_orders pid facility_id shift_date db = Ok (u, db') ->
  exists added,
    package_orders db' = package_orders db ++ added
    /\ (List.length added <= MAX_PACKAGE_SIZE)%nat
    /\ (forall po, In po added -> po_package_id po = Some pid)
    /\ (next_uuid db <= next_uuid db')%N
    /\ driver_packages db' = driver_packages db
    /\ package_logs db' = package_logs db.
Proof.
  unfold rough_pine.assign_orders. rewrite bind_get. intros H.
  apply insert_each_order_Ok in H. destruct H as (added & Hpo & Hlen & Hrest).
  exists added. split; [exact Hpo|]. split; [|exact Hrest].
  rewrite Hlen. apply firstn_le_length.
Qed.

Lemma package_cycle_invariant {B : Type} (driver_id facility_id : option uuid)
    (package_date : option date) (s e : time) (st : package_status)
    (f : uuid) (d : date) (k : uuid -> M B) :
  (forall pid, keeps (maintains engine_invariant) (k pid)) ->
  keeps (maintains engine_invariant)
    (bind (crystal_ocean.insert_driver_packages driver_id facility_id package_date s e st)
          (fun pid => bind (rough_pine.assign_orders pid f d) (fun _ => k pid))).
Proof.
  intros Hk db b db' H Hinv. run_inv H.
  match goal with
  | Hi : crystal_ocean.insert_driver_packages _ _ _ _ _ _ _ = Ok (?pid, ?d1) |- _ =>
      apply insert_driver_packages_Ok in Hi;
      destruct Hi as (day & _ & -> & Hn1 & Hd1 & Hp1 & _);
      assert (Hinv1 : engine_invariant d1
                      /\ count_package_orders d1 (next_uuid db) = 0%nat)
  end.
  { destruct Hinv as [Hcap [Hr Hd]]. split; [split; [|split]|].
    - intros p. rewrite count_package_orders_refs, Hp1, <- count_package_orders_refs.
      apply Hcap.
    - intros p. rewrite Hp1, Hn1. intros Hin. specialize (Hr p Hin). lia.
    - intros dp. rewrite Hd1, Hn1, in_app_iff. intros [Hin|[<-|[]]].
      + specialize (Hd dp Hin). lia.
      + simpl. lia.
    - rewrite count_package_orders_refs, Hp1. apply count_refs_absent.
      intros Hin. specialize (Hr _ Hin). lia. }
  destruct Hinv1 as [Hinv1 Hzero].
  match goal with
  | Ha : rough_pine.assign_orders _ _ _ _ = Ok _ |- _ =>
      apply assign_orders_Ok in Ha;
      destruct Ha as (added & Hpo & Hlen & Hall & Hn & Hd & _)
  end.
  eapply Hk; [exact H|].
  eapply invariant_after_rows; eauto.
  - rewrite Hzero. simpl. exact Hlen.
  - lia.
  - intros dp. rewrite Hd. intros Hin. destruct Hinv1 as [_ [_ Hf]].
    specialize (Hf dp Hin). lia.
Qed.

Ltac invariant_leaf :=
  first [ eapply keeps_weaken;
          [exact same_assignments_invariant
          | first [ apply optimize_route_same
                  | eapply keeps_weaken;
                    [exact orders_only_same_assignments
                    | apply update_orders_assigned_driver_id_only ] ] ]
        | kapply keeps_modify; intros ? Hinv; exact Hinv
        | intros ? ? ? Hv;
          first [ apply validate_driver_status_Ok in Hv; destruct Hv as [_ ->];
                  reflexivity
                | apply insert_package_logs_same_rows in Hv; rewrite Hv;
                  intros Hinv; exact Hinv ] ].


(** *** The single-order path *)




(** *** The states that the engine can reach *)





(** ** Running the single-order path again *)




(** ** No driver for the order *)


(** Setting the driver of orders to NULL passes the guards. *)
Lemma update_orders_from_null (p : order -> bool) (done todo : list order)
    (db : database) :
  exists db', update_orders_from p None done todo db = Ok (tt, db').
Proof.
  revert done db. induction todo as [|o rest IH]; intros done db; simpl.
  - eexists. reflexivity.
  - destruct (p o); [|apply IH].
    rewrite (bind_Ok_eq _ _ db db (set_assigned_driver o None)) by reflexivity.
    rewrite bind_modify. apply IH.
Qed.

Lemma existsb_all_false {A : Type} (f : A -> bool) (l : list A) :
  (forall x, In x l -> f x = false) -> existsb f l = false.
Proof.
  intros H. apply Bool.not_true_iff_false. intros E.
  apply existsb_exists in E. destruct E as (x & Hin & Hx).
  rewrite (H x Hin) in Hx. discriminate.
Qed.


Lemma package_driver_null (dps : list driver_package) (pid : uuid) :
  (forall dp, In dp dps -> dp_id dp = pid -> dp_driver_id dp = None) ->
  select_into dp_driver_id
    (filter (fun dp => sql_eq N.eqb (Some (dp_id dp)) (Some pid)) dps) = None.
Proof.
  induction dps as [|dp u IHd]; intros Hpending; simpl; [reflexivity|].
  destruct (N.eqb_spec (dp_id dp) pid) as [Heq|Hne]; simpl.
  - apply Hpending; [left; reflexivity|exact Heq].
  - apply IHd. intros x Hx. apply Hpending. right. exact Hx.
Qed.








(** ** The batch run and a facility that fails *)

#[export] Instance logs_extend_PreOrder : PreOrder logs_extend.
Proof.
  split.
  - intros x. exists []. rewrite app_nil_r. reflexivity.
  - intros x y z [l1 H1] [l2 H2]. exists (l1 ++ l2). rewrite H2, H1, app_assoc.
    reflexivity.
Qed.

Lemma same_assignments_logs (db db' : database) :
  same_assignments db db' -> logs_extend db db'.
Proof. intros [_ _ Hl _ _]. exists []. rewrite app_nil_r. exact Hl. Qed.

Ltac logs_leaf :=
  first [ eapply keeps_weaken;
          [exact same_assignments_logs
          | first [ apply optimize_route_same
                  | eapply keeps_weaken;
                    [exact orders_only_same_assignments
                    | apply update_orders_assigned_driver_id_only ] ] ]
        | intros ? ? ? Hv; unfold logs_extend;
          first [ apply insert_package_logs_same_rows in Hv; rewrite Hv;
                  eexists; reflexivity
                | apply insert_driver_packages_Ok in Hv;
                  destruct Hv as (? & _ & _ & _ & _ & _ & _ & _ & _ & _ & Hv);
                  rewrite Hv; eexists; reflexivity
                | apply assign_orders_Ok in Hv;
                  destruct Hv as (? & _ & _ & _ & _ & _ & Hv);
                  rewrite Hv; exists []; rewrite app_nil_r; reflexivity ] ].

Lemma process_facility_logs (random : nat -> R) (fuel : nat) (shift_date : date)
    (f : facility) :
  keeps logs_extend (process_facility random fuel shift_date f).
Proof.
  assert (Hdrivers : forall fid l n,
             keeps logs_extend (driver_loop random fuel fid shift_date l n)).
  { intros fid l. induction l as [|d rest IH]; intros n; cbn [driver_loop].
    - kapply keeps_ret.
    - repeat first [ apply IH | logs_leaf | keeps_step ]. }
  assert (Hpending : forall k fid n,
             keeps logs_extend (pending_loop random k fid shift_date n)).
  { intros k fid. induction k as [|k IH]; intros n; cbn [pending_loop].
    - repeat keeps_step.
    - unfold pending_cycle. repeat first [ apply IH | logs_leaf | keeps_step ]. }
  unfold process_facility.
  repeat first [ apply Hdrivers | apply Hpending | logs_leaf | keeps_step ].
Qed.

Lemma generate_driver_packages_for_logs (random : nat -> R) (fuel : nat)
    (shift_date : date) (fs : list facility) :
  keeps logs_extend (generate_driver_packages_for random fuel shift_date fs).
Proof.
  unfold generate_driver_packages_for, log_generation_error.
  repeat first [ apply process_facility_logs | logs_leaf | keeps_step ].
Qed.

Lemma for_each_app {A : Type} (l1 l2 : list A) (body : A -> M unit) (db : database) :
  for_each (l1 ++ l2) body db
  = match for_each l1 body db with
    | Ok (_, db1) => for_each l2 body db1
    | Raise e => Raise e
    | OutOfFuel => OutOfFuel
    end.
Proof.
  revert db. induction l1 as [|x t IH]; intros db; simpl.
  - destruct (for_each l2 body db) as [[[] d]| |]; reflexivity.
  - unfold bind. destruct (body x db) as [[u db1]|e|]; auto.
Qed.

(** The run as a whole raises nothing: what a facility raises is caught. *)
Lemma generate_driver_packages_for_catches (random : nat -> R) (fuel : nat)
    (shift_date : date) (fs : list facility) (db : database) (e : exn) :
  generate_driver_packages_for random fuel shift_date fs db <> Raise e.
Proof.
  unfold generate_driver_packages_for. revert db.
  induction fs as [|f rest IH]; intros db; simpl; [discriminate|].
  unfold bind, try_catch.
  destruct (process_facility random fuel shift_date f db) as [[u db1]|e1|].
  - apply IH.
  - apply IH.
  - discriminate.
Qed.

(** C10: when the block of a facility raises, the run goes on with the next
    facility from the state before the block, to which the handler has
    added a 'package_generation_error' entry with the id of the facility;
    the run does not raise, and the entry is in the log at its end. *)
Theorem facility_failure_is_isolated (random : nat -> R) (fuel : nat)
    (shift_date : date) (fs1 fs2 : list facility) (f : facility)
    (db db1 : database) (e : exn) :
  generate_driver_packages_for random fuel shift_date fs1 db = Ok (tt, db1) ->
  process_facility random fuel shift_date f db1 = Raise e ->
  let logged := set_package_logs db1 (package_logs db1 ++ [generation_error f e]) in
  generate_driver_packages_for random fuel shift_date (fs1 ++ f :: fs2) db
  = generate_driver_packages_for random fuel shift_date fs2 logged
  /\ (forall e', generate_driver_packages_for random fuel shift_date
                   (fs1 ++ f :: fs2) db <> Raise e')
  /\ (forall db', generate_driver_packages_for random fuel shift_date
                    (fs1 ++ f :: fs2) db = Ok (tt, db') ->
                  In (generation_error f e) (package_logs db')).
Proof.
  intros H1 Hf logged.
  assert (Heq : generate_driver_packages_for random fuel shift_date (fs1 ++ f :: fs2) db
                = generate_driver_packages_for random fuel shift_date fs2 logged).
  { unfold generate_driver_packages_for in *. rewrite for_each_app, H1. simpl.
    unfold bind at 1. unfold try_catch. rewrite Hf. reflexivity. }
  split; [exact Heq|]. split.
  - intros e'. apply generate_driver_packages_for_catches.
  - intros db' H. rewrite Heq in H.
    apply generate_driver_packages_for_logs in H. destruct H as [l Hl].
    rewrite Hl. simpl. apply in_or_app. left. apply in_or_app. right. left. reflexivity.
Qed.


(** ** The loop for packages without a driver *)

Lemma cleared_refl (l : list order) : Forall2 cleared l l.
Proof. induction l; constructor; [left; reflexivity | assumption]. Qed.

Lemma cleared_trans (l1 l2 l3 : list order) :
  Forall2 cleared l1 l2 -> Forall2 cleared l2 l3 -> Forall2 cleared l1 l3.
Proof.
  intros H. revert l3. induction H as [|a b l1 l2 Hab _ IH]; intros l3 H3.
  - inversion H3. constructor.
  - inversion H3 as [|b' c l2' l3' Hbc Hrest]; subst. constructor; [|apply IH; assumption].
    destruct Hab as [->| ->], Hbc as [->| ->]; [left|right|right|right]; reflexivity.
Qed.

#[export] Instance drivers_cleared_PreOrder : PreOrder drivers_cleared.
Proof.
  split.
  - intros db. split; [reflexivity | apply cleared_refl].
  - intros x y z [Hp1 Ho1] [Hp2 Ho2]. split; [congruence|].
    eapply cleared_trans; eassumption.
Qed.

#[export] Instance no_driver_gained_PreOrder (pid : uuid) : PreOrder (no_driver_gained pid).
Proof.
  split.
  - intros db _. reflexivity.
  - intros x y z H1 H2 Hx. specialize (H1 Hx). transitivity y; [exact H1|].
    apply H2. unfold driverless in *. destruct H1 as [-> _]. exact Hx.
Qed.

Lemma drivers_cleared_set (db : database) (done rest : list order) (o : order) :
  orders db = done ++ o :: rest ->
  drivers_cleared db (set_orders db (done ++ set_assigned_driver o None :: rest)).
Proof.
  intros Ho. split; [reflexivity|]. rewrite Ho. simpl.
  apply Forall2_app; [apply cleared_refl|].
  constructor; [right; reflexivity | apply cleared_refl].
Qed.

Lemma update_orders_from_cleared (p : order -> bool) (done todo : list order)
    (db db' : database) (u : unit) :
  orders db = done ++ todo ->
  update_orders_from p None done todo db = Ok (u, db') ->
  drivers_cleared db db'.
Proof.
  revert done db. induction todo as [|o rest IH]; intros done db Ho H; simpl in H.
  - run_inv H. reflexivity.
  - destruct (p o).
    + run_inv H.
      match goal with
      | Hb : orders_before_update_of_assigned_driver_id _ _ = Ok _ |- _ =>
          apply orders_before_update_Ok in Hb; destruct Hb as [-> ->]
      end.
      transitivity (set_orders db (done ++ set_assigned_driver o None :: rest)).
      * apply drivers_cleared_set. exact Ho.
      * eapply IH; [|exact H]. simpl. rewrite <- app_assoc. reflexivity.
    + eapply IH; [|exact H]. rewrite <- app_assoc. exact Ho.
Qed.

Lemma validate_order_assignment_cleared (NEW : package_order) (pid : uuid) :
  po_package_id NEW = Some pid ->
  keeps (no_driver_gained pid) (validate_order_assignment NEW).
Proof.
  intros Hpid db r db' H Hd. unfold validate_order_assignment in H. run_inv H.
  destruct (existsb _ (package_orders _)); [discriminate H|].
  destruct (existsb _ (orders _)); [discriminate H|].
  run_inv H. rewrite Hpid in *. unfold driverless in Hd.
  match goal with
  | Hu : update_orders_assigned_driver_id _ _ _ = Ok _ |- _ =>
      rewrite Hd in Hu; unfold update_orders_assigned_driver_id in Hu; run_inv Hu;
      eapply update_orders_from_cleared; [|exact Hu]; reflexivity
  end.
Qed.

Lemma check_unique_cleared (others : list package_order) (NEW : package_order)
    (pid : uuid) : keeps (no_driver_gained pid) (check_unique others NEW).
Proof. intros db u db' H. apply check_unique_Ok in H. destruct H as [-> _]. reflexivity. Qed.

Ltac cleared_leaf :=
  first [ apply check_unique_cleared
        | apply validate_order_assignment_cleared; reflexivity
        | kapply keeps_modify; intros ? _; split; [reflexivity | apply cleared_refl] ].

Lemma insert_package_orders_cleared (pid : uuid) (order_id : option uuid) (seq : Z)
    (arr : option time) (st : stop_status) :
  keeps (no_driver_gained pid) (insert_package_orders (Some pid) order_id seq arr st).
Proof.
  unfold insert_package_orders. repeat first [ cleared_leaf | keeps_step ].
Qed.

Lemma update_package_orders_from_cleared (pid : uuid) (p : package_order -> bool)
    (set : package_order -> package_order) (done todo : list package_order) :
  (forall po, p po = true -> po_package_id (set po) = Some pid) ->
  keeps (no_driver_gained pid) (update_package_orders_from p set done todo).
Proof.
  intros Hp. revert done. induction todo as [|po rest IH]; intros done; simpl.
  - kapply keeps_ret.
  - destruct (p po) eqn:E; [|apply IH].
    kapply keeps_bind.
    + apply validate_order_assignment_cleared. apply Hp. exact E.
    + intros NEW. repeat first [ apply IH | cleared_leaf | keeps_step ].
Qed.

Lemma update_sequence_number_cleared (pid : uuid) (q : package_order -> bool) (n : Z) :
  keeps (no_driver_gained pid)
        (update_package_orders
           (fun po => sql_eq N.eqb (po_package_id po) (Some pid) && q po)
           (fun po => set_sequence_number po n)).
Proof.
  unfold update_package_orders. kapply keeps_bind; [kapply keeps_get|]. intros db.
  apply update_package_orders_from_cleared. intros po Hpo. simpl.
  apply andb_prop in Hpo. destruct Hpo as [Hpo _].
  destruct (po_package_id po) as [r|]; [|discriminate Hpo].
  simpl in Hpo. apply N.eqb_eq in Hpo. congruence.
Qed.

Lemma optimize_route_loop_cleared (random : nat -> R) (fuel : nat) (package_id : uuid)
    (current : option (R * R)) (sequence : Z) :
  keeps (no_driver_gained package_id)
        (crystal_ocean.optimize_route_loop random fuel package_id current sequence).
Proof.
  revert sequence. induction fuel as [|fuel IH]; intros sequence; simpl.
  - repeat keeps_step.
  - repeat first [ apply IH | apply update_sequence_number_cleared
                 | cleared_leaf | keeps_step ].
Qed.

Lemma optimize_route_cleared (random : nat -> R) (fuel : nat) (package_id : uuid) :
  keeps (no_driver_gained package_id)
        (crystal_ocean.optimize_route random fuel package_id).
Proof.
  unfold crystal_ocean.optimize_route.
  repeat first [ apply optimize_route_loop_cleared | keeps_step ].
Qed.

Lemma assign_orders_cleared (pid facility_id : uuid) (shift_date : date) :
  keeps (no_driver_gained pid) (rough_pine.assign_orders pid facility_id shift_date).
Proof.
  unfold rough_pine.assign_orders.
  repeat first [ apply insert_package_orders_cleared | keeps_step ].
Qed.

Lemma drivers_cleared_unassigned (db db' : database) (facility_id : uuid)
    (shift_date : date) :
  drivers_cleared db db' ->
  (List.length (unassigned_orders db facility_id shift_date)
   <= List.length (unassigned_orders db' facility_id shift_date))%nat.
Proof.
  intros [_ H]. unfold unassigned_orders.
  induction H as [|o o' l l' Ho _ IH]; simpl; [lia|].
  destruct Ho as [->| ->].
  - destruct (_ && _); simpl; lia.
  - cbn [set_assigned_driver o_facility_id o_estimated_delivery o_status
         o_assigned_driver_id is_null].
    rewrite Bool.andb_true_r.
    destruct (sql_eq N.eqb (o_facility_id o) (Some facility_id)
              && sql_eq Z.eqb (date_of (o_estimated_delivery o)) (Some shift_date)
              && sql_eq String.eqb (o_status o) (Some "processing"%string));
      simpl; [destruct (is_null _); simpl; lia | lia].
Qed.

Lemma pending_cycle_invariant (random : nat -> R) (fuel : nat) (facility_id : uuid)
    (shift_date : date) :
  keeps (maintains engine_invariant)
        (rough_pine.pending_cycle random fuel facility_id shift_date).
Proof.
  unfold rough_pine.pending_cycle. apply package_cycle_invariant. intros pid.
  invariant_leaf.
Qed.

(** A turn of the loop for packages without a driver leaves every order
    without a driver: the orders to dispatch do not get fewer. *)
Lemma pending_cycle_removes_no_order (random : nat -> R) (fuel : nat)
    (facility_id : uuid) (shift_date : date) (db db' : database) (u : unit) :
  uuids_fresh db ->
  rough_pine.pending_cycle random fuel facility_id shift_date db = Ok (u, db') ->
  (List.length (unassigned_orders db facility_id shift_date)
   <= List.length (unassigned_orders db' facility_id shift_date))%nat.
Proof.
  intros [_ Hfresh] H. unfold rough_pine.pending_cycle in H. run_inv H.
  match goal with
  | Hi : crystal_ocean.insert_driver_packages _ _ _ _ _ _ _ = Ok (?pid, ?d1) |- _ =>
      apply insert_driver_packages_Ok in Hi;
      destruct Hi as (day & _ & -> & _ & Hd1 & _ & Ho1 & _);
      assert (Hnull : driverless d1 (next_uuid db))
  end.
  { unfold driverless. apply package_driver_null. intros dp. rewrite Hd1, in_app_iff.
    intros [Hin|[<-|[]]] Hid; [|reflexivity].
    specialize (Hfresh dp Hin). lia. }
  unfold unassigned_orders at 1. rewrite <- Ho1.
  apply drivers_cleared_unassigned.
  match goal with
  | Ha : rough_pine.assign_orders _ _ _ _ = Ok (_, ?d2) |- _ =>
      apply assign_orders_cleared in Ha; specialize (Ha Hnull);
      transitivity d2; [exact Ha|]
  end.
  apply optimize_route_cleared in H. apply H.
  unfold driverless in *.
  match goal with Ha : drivers_cleared _ _ |- _ => destruct Ha as [-> _] end.
  exact Hnull.
Qed.

(** Once it is entered with orders to dispatch, the loop for packages
    without a driver does not come to its end: a turn raises, or the turns
    go on. *)
Lemma pending_loop_never_completes (random : nat -> R) (fuel : nat)
    (facility_id : uuid) (shift_date : date) (order_count : nat) (db : database) :
  engine_invariant db ->
  (0 < order_count)%nat ->
  unassigned_orders db facility_id shift_date <> [] ->
  forall r, rough_pine.pending_loop random fuel facility_id shift_date order_count db
            <> Ok r.
Proof.
  revert order_count db.
  induction fuel as [|fuel IH]; intros n db Hinv Hn Hne r;
    cbn [rough_pine.pending_loop];
    destruct (Nat.ltb_spec 0 n) as [_|Hle]; try lia; [discriminate|].
  destruct r as [u2 db2]. intros H.
  apply bind_Ok in H. destruct H as (u & db1 & Hc & H).
  rewrite bind_get in H.
  pose proof (pending_cycle_removes_no_order _ _ _ _ _ _ _ (proj2 Hinv) Hc) as Hlen.
  apply (IH _ db1) in H; [exact H| | |].
  - eapply pending_cycle_invariant; eauto.
  - destruct (unassigned_orders db facility_id shift_date); [congruence|].
    simpl in Hlen. lia.
  - intros E. rewrite E in Hlen.
    destruct (unassigned_orders db facility_id shift_date); [congruence|].
    simpl in Hlen. lia.
Qed.

(** A facility with orders to dispatch and no driver to take them: the
    block of the facility does not complete. *)
Lemma process_facility_without_driver (random : nat -> R) (fuel : nat)
    (shift_date : date) (f : facility) (db : database) :
  engine_invariant db ->
  available_drivers db (f_id f) shift_date = [] ->
  unassigned_orders db (f_id f) shift_date <> [] ->
  forall r, rough_pine.process_facility random fuel shift_date f db <> Ok r.
Proof.
  intros Hinv Hnone Hne r. unfold rough_pine.process_facility.
  rewrite bind_get. cbv beta zeta. rewrite Hnone.
  destruct (unassigned_orders db (f_id f) shift_date) as [|o l] eqn:E; [congruence|].
  cbn [List.length Nat.eqb rough_pine.driver_loop]. rewrite bind_ret.
  apply pending_loop_never_completes; [exact Hinv|lia|].
  rewrite E. discriminate.
Qed.

(** So for the facility of [no_driver_db], whatever the fuel. *)
Lemma no_driver_db_never_completes (random : nat -> R) (fuel : nat) :
  forall r, rough_pine.process_facility random fuel 1 (Examples.day_facility 1%N)
              no_driver_db <> Ok r.
Proof.
  apply process_facility_without_driver; [|reflexivity|discriminate].
  split; [intros p; change (0 <= MAX_PACKAGE_SIZE)%nat; apply Nat.le_0_l|].
  split; simpl; intros ? [].
Qed.



Lemma facility_failure_is_isolated_witness :
  let f := Examples.day_facility 1%N in
  let e := OrderAlreadyAssigned (Some 11%N) in
  let logged := set_package_logs two_facilities
                  (package_logs two_facilities ++ [generation_error f e]) in
  generate_driver_packages_for no_random 2 1 ([] ++ f :: [Examples.day_facility 2%N])
    two_facilities
  = generate_driver_packages_for no_random 2 1 [Examples.day_facility 2%N] logged
  /\ (forall e', generate_driver_packages_for no_random 2 1
                   ([] ++ f :: [Examples.day_facility 2%N]) two_facilities <> Raise e')
  /\ (forall db', generate_driver_packages_for no_random 2 1
                    ([] ++ f :: [Examples.day_facility 2%N]) two_facilities
                  = Ok (tt, db') ->
                  In (generation_error f e) (package_logs db')).
Proof.
  apply (facility_failure_is_isolated no_random 2 1 [] [Examples.day_facility 2%N]
           (Examples.day_facility 1%N) two_facilities two_facilities
           (OrderAlreadyAssigned (Some 11%N))).
  - reflexivity.
  - lazy. reflexivity.
Defined.


Lemma calculate_route_distance_origin :
  calculate_route_distance 0 0 (0 * 90) (0 * 180) = 0%R.
Proof.
  unfold calculate_route_distance, frosty_union.radians.
  replace ((0 * 90 * PI / 180 - 0 * PI / 180) / 2)%R with 0%R by lra.
  replace ((0 * 180 * PI / 180 - 0 * PI / 180) / 2)%R with 0%R by lra.
  rewrite sin_0.
  replace (0 ^ 2 + cos (0 * PI / 180) * cos (0 * 90 * PI / 180) * 0 ^ 2)%R with 0%R
    by ring.
  rewrite sqrt_0, asin_0. ring.
Qed.

Lemma calculate_route_distance_north :
  calculate_route_distance 0 0 (1 / 2 * 90) (0 * 180) = (6371 * (PI / 4))%R.
Proof.
  unfold calculate_route_distance, frosty_union.radians.
  replace ((1 / 2 * 90 * PI / 180 - 0 * PI / 180) / 2)%R with (PI / 8)%R by lra.
  replace ((0 * 180 * PI / 180 - 0 * PI / 180) / 2)%R with 0%R by lra.
  rewrite sin_0.
  replace (sin (PI / 8) ^ 2 + cos (0 * PI / 180) * cos (1 / 2 * 90 * PI / 180) * 0 ^ 2)%R
    with (sin (PI / 8) ^ 2)%R by ring.
  pose proof PI_RGT_0 as Hpi.
  assert (Hs : (0 <= sin (PI / 8))%R).
  { apply sin_ge_0; lra. }
  rewrite sqrt_pow2 by exact Hs.
  rewrite asin_sin by lra. lra.
Qed.

(** The stop far away has the smaller simulated distance and is taken. *)
Lemma first_stop_is_far :
  first_min (fun a b : package_order * option R => key_lt (snd a) (snd b))
    (with_simulated_distance half_then_zero (Some (0, 0)%R) 0
       [stop 60%N 11%N 0; stop 61%N 12%N 0])
  = Some (stop 61%N 12%N 0, Some 0%R).
Proof.
  cbn [with_simulated_distance first_min snd simulated_distance half_then_zero].
  rewrite calculate_route_distance_origin, calculate_route_distance_north.
  cbn [key_lt].
  replace (Rltb 0 (6371 * (PI / 4))) with true; [reflexivity|].
  symmetry. apply Rltb_true. pose proof PI_RGT_0. lra.
Qed.

Lemma optimize_route_loop_step (random : nat -> R) (fuel : nat) (package_id : uuid)
    (current : option (R * R)) (sequence : Z) (db : database) :
  optimize_route_loop random (S fuel) package_id current sequence db
  = if existsb (fun po => sql_eq N.eqb (po_package_id po) (Some package_id)
                          && (po_sequence_number po =? 0))
               (package_orders db)
    then
      (broad_pine.update_package_orders
         (fun po => sql_eq N.eqb (po_package_id po) (Some package_id)
                    && sql_eq N.eqb (po_order_id po)
                         match first_min (fun a b => key_lt (snd a) (snd b))
                                 (with_simulated_distance random current (random_calls db)
                                    (unsequenced db package_id)) with
                         | Some (po, _) => po_order_id po
                         | None => None
                         end)
         (fun po => set_sequence_number po sequence) ;;
       optimize_route_loop random fuel package_id current (sequence + 1))
        (set_random_calls db
           (random_calls db + 2 * List.length (unsequenced db package_id)))
    else Ok (tt, db).
Proof.
  cbn [optimize_route_loop]. rewrite bind_get. cbv beta.
  destruct (existsb _ (package_orders db)); reflexivity.
Qed.


(** ** The route does not depend on where the stops are *)

Section relocation.

Variable place : uuid -> option R * option R.

Lemma blind_ret {A : Type} (g : A -> A) (a : A) : coordinate_blind place g (ret a) (ret (g a)).
Proof. intros db. reflexivity. Qed.

Lemma blind_raise {A : Type} (g : A -> A) (e : exn) : coordinate_blind place g (raise e) (raise e).
Proof. intros db. reflexivity. Qed.

Lemma blind_get : coordinate_blind place (relocate place) get get.
Proof. intros db. reflexivity. Qed.

Lemma blind_bind {A B : Type} (gA : A -> A) (gB : B -> B) (m m' : M A)
    (k k' : A -> M B) :
  coordinate_blind place gA m m' ->
  (forall a, coordinate_blind place gB (k a) (k' (gA a))) ->
  coordinate_blind place gB (bind m k) (bind m' k').
Proof.
  intros Hm Hk db. unfold bind. rewrite Hm.
  destruct (m db) as [[a db1]|e|]; simpl; [apply Hk|reflexivity|reflexivity].
Qed.

Lemma blind_modify (h h' : database -> database) :
  (forall db, h' (relocate place db) = relocate place (h db)) ->
  coordinate_blind place (fun u => u) (modify h) (modify h').
Proof. intros H db. unfold modify. rewrite H. reflexivity. Qed.

Lemma existsb_moved (f : order -> bool) (l : list order) :
  (forall o, f (move place o) = f o) ->
  existsb f (map (move place) l) = existsb f l.
Proof.
  intros H. induction l as [|o t IH]; simpl; [reflexivity|]. rewrite H, IH. reflexivity.
Qed.


Lemma validate_driver_status_blind (NEW : order) :
  coordinate_blind place (move place)
    (white_bar.validate_driver_status NEW)
    (white_bar.validate_driver_status (move place NEW)).
Proof.
  intros db. unfold white_bar.validate_driver_status. rewrite !bind_get. cbv beta.
  change (o_assigned_driver_id (move place NEW)) with (o_assigned_driver_id NEW).
  change (drivers (relocate place db)) with (drivers db).
  destruct (is_not_null _); [destruct (negb _)|]; reflexivity.
Qed.

Lemma prevent_duplicate_driver_assignment_blind (NEW : order) :
  coordinate_blind place (move place)
    (prevent_duplicate_driver_assignment NEW)
    (prevent_duplicate_driver_assignment (move place NEW)).
Proof.
  intros db. unfold prevent_duplicate_driver_assignment. rewrite !bind_get. cbv beta.
  change (orders (relocate place db)) with (map (move place) (orders db)).
  rewrite existsb_moved by reflexivity.
  change (o_assigned_driver_id (move place NEW)) with (o_assigned_driver_id NEW).
  change (o_id (move place NEW)) with (o_id NEW).
  change (o_estimated_delivery (move place NEW)) with (o_estimated_delivery NEW).
  destruct (_ && _); reflexivity.
Qed.

Lemma orders_before_update_blind (NEW : order) :
  coordinate_blind place (move place)
    (orders_before_update_of_assigned_driver_id NEW)
    (orders_before_update_of_assigned_driver_id (move place NEW)).
Proof.
  unfold orders_before_update_of_assigned_driver_id.
  apply (blind_bind (move place) (move place));
    [apply validate_driver_status_blind|].
  intros a. apply prevent_duplicate_driver_assignment_blind.
Qed.

Lemma update_orders_from_blind (p : order -> bool) (v : option uuid)
    (done todo : list order) :
  (forall o, p (move place o) = p o) ->
  coordinate_blind place (fun u => u)
    (update_orders_from p v done todo)
    (update_orders_from p v (map (move place) done) (map (move place) todo)).
Proof.
  intros Hp. revert done. induction todo as [|o rest IH]; intros done; simpl.
  - apply (blind_ret (fun u => u) tt).
  - rewrite Hp. destruct (p o).
    + apply (blind_bind (move place) (fun u => u));
        [apply (orders_before_update_blind (set_assigned_driver o v))|].
      intros NEW. apply (blind_bind (fun u => u) (fun u => u)).
      * apply blind_modify. intros db. unfold relocate. simpl.
        rewrite map_app. reflexivity.
      * intros _. specialize (IH (done ++ [NEW])). rewrite map_app in IH. exact IH.
    + specialize (IH (done ++ [o])). rewrite map_app in IH. exact IH.
Qed.

Lemma update_orders_assigned_driver_id_blind (p : order -> bool) (v : option uuid) :
  (forall o, p (move place o) = p o) ->
  coordinate_blind place (fun u => u)
    (update_orders_assigned_driver_id p v) (update_orders_assigned_driver_id p v).
Proof.
  intros Hp db. unfold update_orders_assigned_driver_id. rewrite !bind_get.
  apply (update_orders_from_blind p v [] (orders db) Hp).
Qed.

Lemma validate_order_assignment_blind (NEW : package_order) :
  coordinate_blind place (fun po => po)
    (validate_order_assignment NEW) (validate_order_assignment NEW).
Proof.
  intros db. unfold validate_order_assignment. rewrite !bind_get. cbv beta.
  change (package_orders (relocate place db)) with (package_orders db).
  change (driver_packages (relocate place db)) with (driver_packages db).
  change (orders (relocate place db)) with (map (move place) (orders db)).
  rewrite existsb_moved by reflexivity.
  destruct (existsb _ (package_orders db)); [reflexivity|].
  destruct (existsb _ (orders db)); [reflexivity|].
  apply (blind_bind (fun u => u) (fun po => po)).
  - apply update_orders_assigned_driver_id_blind. reflexivity.
  - intros _. apply (blind_ret (fun po => po) NEW).
Qed.

Lemma check_unique_blind (others : list package_order) (NEW : package_order) :
  coordinate_blind place (fun u => u) (check_unique others NEW) (check_unique others NEW).
Proof.
  intros db. unfold check_unique.
  destruct (existsb _ others); [reflexivity|].
  destruct (existsb _ others); reflexivity.
Qed.

Lemma update_package_orders_from_blind (p : package_order -> bool)
    (set : package_order -> package_order) (done todo : list package_order) :
  coordinate_blind place (fun u => u)
    (update_package_orders_from p set done todo)
    (update_package_orders_from p set done todo).
Proof.
  revert done. induction todo as [|po rest IH]; intros done; simpl.
  - apply (blind_ret (fun u => u) tt).
  - destruct (p po); [|apply IH].
    apply (blind_bind (fun x => x) (fun u => u));
      [apply validate_order_assignment_blind|].
    intros NEW. apply (blind_bind (fun u => u) (fun u => u));
      [apply check_unique_blind|].
    intros _. apply (blind_bind (fun u => u) (fun u => u)); [|intros _; apply IH].
    apply blind_modify. intros db. reflexivity.
Qed.

Lemma update_package_orders_blind (p : package_order -> bool)
    (set : package_order -> package_order) :
  coordinate_blind place (fun u => u)
    (update_package_orders p set) (update_package_orders p set).
Proof.
  intros db. unfold update_package_orders. rewrite !bind_get.
  apply update_package_orders_from_blind.
Qed.

Lemma unsequenced_relocate (db : database) (package_id : uuid) :
  unsequenced (relocate place db) package_id = unsequenced db package_id.
Proof.
  unfold unsequenced.
  change (package_orders (relocate place db)) with (package_orders db).
  change (orders (relocate place db)) with (map (move place) (orders db)).
  apply filter_ext. intros po. rewrite existsb_moved by reflexivity. reflexivity.
Qed.

Lemma optimize_route_loop_blind (random : nat -> R) (fuel : nat) (package_id : uuid)
    (current : option (R * R)) (sequence : Z) :
  coordinate_blind place (fun u => u)
    (optimize_route_loop random fuel package_id current sequence)
    (optimize_route_loop random fuel package_id current sequence).
Proof.
  revert sequence. induction fuel as [|fuel IH]; intros sequence db;
    cbn [optimize_route_loop]; rewrite !bind_get; cbv beta;
    change (package_orders (relocate place db)) with (package_orders db);
    (destruct (existsb _ (package_orders db)); [|reflexivity]); [reflexivity|].
  cbv zeta. rewrite unsequenced_relocate.
  change (random_calls (relocate place db)) with (random_calls db).
  apply (blind_bind (fun u => u) (fun u => u)).
  - apply blind_modify. intros d. reflexivity.
  - intros _. apply (blind_bind (fun u => u) (fun u => u));
      [apply update_package_orders_blind | intros _; apply IH].
Qed.

(** [optimize_route] does not read the coordinates of the orders: with the
    orders moved anywhere it does the same. *)
Lemma optimize_route_blind (random : nat -> R) (fuel : nat) (package_id : uuid) :
  coordinate_blind place (fun u => u)
    (optimize_route random fuel package_id) (optimize_route random fuel package_id).
Proof.
  intros db. unfold optimize_route. rewrite !bind_get.
  change (facility_position (relocate place db) package_id)
    with (facility_position db package_id).
  apply optimize_route_loop_blind.
Qed.

End relocation.

(** The sequence numbers that [optimize_route] gives are the same wherever
    the stops are. *)
Lemma optimize_route_same_route_anywhere (random : nat -> R) (fuel : nat)
    (package_id : uuid) (place : uuid -> option R * option R) (db db1 : database) :
  optimize_route random fuel package_id db = Ok (tt, db1) ->
  exists db2,
    optimize_route random fuel package_id (relocate place db) = Ok (tt, db2)
    /\ package_orders db2 = package_orders db1.
Proof.
  intros H. exists (relocate place db1). split; [|reflexivity].
  rewrite (optimize_route_blind place random fuel package_id db), H. reflexivity.
Qed.

(** The route of [two_stops] with the simulated points of [half_then_zero]. *)
Lemma two_stops_route :
  exists db',
    optimize_route half_then_zero 2 50%N two_stops = Ok (tt, db')
    /\ package_orders db' = [stop 60%N 11%N 2; stop 61%N 12%N 1].
Proof.
  eexists. split.
  - unfold optimize_route. rewrite bind_get. cbv beta.
    change (facility_position two_stops 50%N) with (Some (0, 0)%R).
    rewrite optimize_route_loop_step.
    change (unsequenced two_stops 50%N) with [stop 60%N 11%N 0; stop 61%N 12%N 0].
    change (random_calls two_stops) with 0%nat.
    rewrite first_stop_is_far.
    lazy. reflexivity.
  - reflexivity.
Qed.

(** With the two stops exchanged, order 12 at the facility and order 11 to
    the north, the route is the same. *)
Lemma two_stops_exchanged_route :
  exists db',
    optimize_route half_then_zero 2 50%N
      (relocate (fun id => if (id =? 11)%N then (Some 45%R, Some 0%R)
                           else (Some 0%R, Some 0%R))
                two_stops)
    = Ok (tt, db')
    /\ package_orders db' = [stop 60%N 11%N 2; stop 61%N 12%N 1].
Proof.
  destruct two_stops_route as (db1 & Hrun & Hrows).
  eapply optimize_route_same_route_anywhere in Hrun.
  destruct Hrun as (db2 & Hrun & Hsame).
  exists db2. split; [exact Hrun|]. rewrite Hsame. exact Hrows.
Qed.







(** ** The distance functions *)

Lemma calculate_distance_haversine (lat1 lon1 lat2 lon2 : R) :
  calculate_distance lat1 lon1 lat2 lon2
  = (6371 * (2 * asin (sqrt (haversine lat1 lon1 lat2 lon2))))%R.
Proof. reflexivity. Qed.






Lemma calculate_route_distance_haversine (lat1 lon1 lat2 lon2 : R) :
  calculate_route_distance lat1 lon1 lat2 lon2
  = (6371 * (2 * asin (sqrt (haversine lat1 lon1 lat2 lon2))))%R.
Proof. reflexivity. Qed.



Lemma haversine_symmetric (lat1 lon1 lat2 lon2 : R) :
  haversine lat1 lon1 lat2 lon2 = haversine lat2 lon2 lat1 lon1.
Proof.
  unfold haversine.
  replace ((radians lat2 - radians lat1) / 2)%R
    with (- ((radians lat1 - radians lat2) / 2))%R by field.
  replace ((radians lon2 - radians lon1) / 2)%R
    with (- ((radians lon1 - radians lon2) / 2))%R by field.
  rewrite !sin_neg. ring.
Qed.

(** X2: the distance from a point to another is the distance back, for
    both distance functions. *)
Theorem calculate_distance_symmetric (lat1 lon1 lat2 lon2 : R) :
  calculate_distance lat1 lon1 lat2 lon2 = calculate_distance lat2 lon2 lat1 lon1
  /\ calculate_route_distance lat1 lon1 lat2 lon2
     = calculate_route_distance lat2 lon2 lat1 lon1.
Proof.
  rewrite ?calculate_route_distance_haversine, ?calculate_distance_haversine.
  rewrite (haversine_symmetric lat1 lon1 lat2 lon2). split; reflexivity.
Qed.









(** ** The route sequencer *)

#[export] Instance stops_and_orders_only_PreOrder : PreOrder stops_and_orders_only.
Proof.
  split; unfold stops_and_orders_only.
  - intros []; reflexivity.
  - intros x y z Hy Hz. rewrite Hz. rewrite Hy at 1. reflexivity.
Qed.

Lemma set_assigned_driver_twice (o : order) (d d' : option uuid) :
  set_assigned_driver (set_assigned_driver o d) d' = set_assigned_driver o d'.
Proof. reflexivity. Qed.

Lemma set_assigned_driver_same (o : order) :
  set_assigned_driver o (o_assigned_driver_id o) = o.
Proof. destruct o; reflexivity. Qed.

Lemma same_but_driver_refl (l : list order) :
  Forall2 (fun o o' => exists d, o' = set_assigned_driver o d) l l.
Proof.
  induction l as [|o t IH]; constructor; [|exact IH].
  exists (o_assigned_driver_id o). symmetry. apply set_assigned_driver_same.
Qed.

Lemma same_but_driver_trans (l1 l2 l3 : list order) :
  Forall2 (fun o o' => exists d, o' = set_assigned_driver o d) l1 l2 ->
  Forall2 (fun o o' => exists d, o' = set_assigned_driver o d) l2 l3 ->
  Forall2 (fun o o' => exists d, o' = set_assigned_driver o d) l1 l3.
Proof.
  intros H. revert l3. induction H as [|a b l1 l2 [d ->] _ IH]; intros l3 H3.
  - inversion H3. constructor.
  - inversion H3 as [|b' c l2' l3' [d' ->] Hrest]; subst.
    constructor; [exists d'; reflexivity | apply IH; exact Hrest].
Qed.

#[export] Instance same_orders_but_driver_PreOrder : PreOrder same_orders_but_driver.
Proof.
  split; unfold same_orders_but_driver.
  - intros db. apply same_but_driver_refl.
  - intros x y z. apply same_but_driver_trans.
Qed.
























Lemma Forall2_In_left {A B : Type} (R : A -> B -> Prop) (l : list A) (l' : list B)
    (x : A) :
  Forall2 R l l' -> In x l -> exists y, In y l' /\ R x y.
Proof.
  intros H. induction H as [|a b l l' Hab _ IH]; intros Hin; [destruct Hin|].
  destruct Hin as [<-|Hin].
  - exists b. split; [left; reflexivity | exact Hab].
  - destruct (IH Hin) as (y & Hy & Hxy). exists y. split; [right; exact Hy | exact Hxy].
Qed.

Section renumbering.

Variables (package_id : uuid) (next : option uuid) (n : Z).
Hypothesis n_positive : 1 <= n.






End renumbering.




(** ** The guards on assignments: what they write and what they refuse *)















(** ** The statements that remove duplicate assignments *)

Import duplicate_cleanup.



Lemma delete_later_assignments_In (rows : list stored) (r : stored) :
  In r (delete_later_assignments rows) <->
  In r rows
  /\ forall r', In r' rows ->
                sql_eq N.eqb (st_order_id r') (st_order_id r) = true ->
                sql_lt (st_created_at r') (st_created_at r) = false.
Proof.
  unfold delete_later_assignments. rewrite filter_In, negb_true_iff. split.
  - intros [Hin Hno]. split; [exact Hin|]. intros r' Hr' Heq.
    destruct (sql_lt (st_created_at r') (st_created_at r)) eqn:E; [|reflexivity].
    apply Bool.not_true_iff_false in Hno. exfalso. apply Hno.
    apply existsb_exists. exists r'. rewrite Heq, E. auto.
  - intros [Hin Hno]. split; [exact Hin|]. apply existsb_all_false.
    intros r' Hr'. destruct (sql_eq N.eqb (st_order_id r') (st_order_id r)) eqn:E;
      [|reflexivity].
    simpl. apply Hno; assumption.
Qed.


Lemma ForallOrdPairs_filter {A : Type} (R : A -> A -> Prop) (f : A -> bool)
    (l : list A) : ForallOrdPairs R l -> ForallOrdPairs R (filter f l).
Proof.
  intros H. induction H as [|a l Ha _ IH]; simpl; [constructor|].
  destruct (f a); [|exact IH]. constructor; [|exact IH].
  apply Forall_forall. intros x Hx. apply filter_In in Hx.
  rewrite Forall_forall in Ha. apply Ha. apply Hx.
Qed.

Lemma kept_rows_unique (rows l : list stored) :
  ForallOrdPairs created_apart l ->
  (forall r, In r l -> In r (delete_later_assignments rows)) ->
  at_most_one_assignment (map st_row l).
Proof.
  intros H. induction H as [|a l Ha _ IH]; intros Hkept order_id;
    unfold assignments_of; cbn [map filter]; [cbn; lia|].
  specialize (IH (fun r Hr => Hkept r (or_intror Hr)) order_id).
  unfold assignments_of in IH.
  destruct (sql_eq N.eqb (po_order_id (st_row a)) (Some order_id)) eqn:Ea;
    [|exact IH].
  assert (Hnil : assignments_of (map st_row l) order_id = []).
  { unfold assignments_of.
    destruct (filter _ (map st_row l)) as [|po rest] eqn:E; [reflexivity|exfalso].
    assert (Hpo : In po (filter (fun po => sql_eq N.eqb (po_order_id po) (Some order_id))
                           (map st_row l))) by (rewrite E; left; reflexivity).
    apply filter_In in Hpo. destruct Hpo as [Hpo Hid].
    apply in_map_iff in Hpo. destruct Hpo as (b & <- & Hb).
    rewrite Forall_forall in Ha. specialize (Ha b Hb).
    apply sql_eq_N_true in Ea, Hid.
    destruct Ea as (x & Hax & Hx), Hid as (y & Hby & Hy).
    inversion Hx; subst x. inversion Hy; subst y.
    destruct Ha as (x & y & Hcx & Hcy & Hxy).
    { unfold st_order_id. rewrite Hax, Hby. simpl. apply N.eqb_refl. }
    pose proof (Hkept a (or_introl eq_refl)) as Hka.
    pose proof (Hkept b (or_intror Hb)) as Hkb.
    apply delete_later_assignments_In in Hka, Hkb.
    destruct Hka as [Hina Hfa], Hkb as [Hinb Hfb].
    destruct (Z.lt_total x y) as [Hlt|[Heq|Hgt]]; [|congruence|].
    - specialize (Hfb a Hina). unfold st_order_id in Hfb. rewrite Hax, Hby in Hfb.
      simpl in Hfb. rewrite N.eqb_refl, Hcx, Hcy in Hfb. specialize (Hfb eq_refl).
      simpl in Hfb. apply Z.ltb_ge in Hfb. lia.
    - specialize (Hfa b Hinb). unfold st_order_id in Hfa. rewrite Hax, Hby in Hfa.
      simpl in Hfa. rewrite N.eqb_refl, Hcx, Hcy in Hfa. specialize (Hfa eq_refl).
      simpl in Hfa. apply Z.ltb_ge in Hfa. lia. }
  unfold assignments_of in Hnil. rewrite Hnil. cbn. lia.
Qed.

(** X14: when the rows of an order all have a creation time and no two of
    them the same, the table after the cleanup has at most one row for
    every order, so that [UNIQUE (order_id)] can be added. *)
Theorem delete_later_assignments_unique (rows : list stored) :
  ForallOrdPairs created_apart rows ->
  at_most_one_assignment (map st_row (delete_later_assignments rows)).
Proof.
  intros H. apply (kept_rows_unique rows); [|auto].
  unfold delete_later_assignments. apply ForallOrdPairs_filter. exact H.
Qed.

Lemma delete_later_assignments_unique_witness :
  ForallOrdPairs created_apart doubly_assigned
  /\ delete_later_assignments doubly_assigned
     = [assignment_at 61%N 51%N 11%N (Some 3); assignment_at 62%N 50%N 12%N (Some 4)]
  /\ at_most_one_assignment (map st_row (delete_later_assignments doubly_assigned)).
Proof.
  assert (H : ForallOrdPairs created_apart doubly_assigned).
  { repeat constructor; intros Heq; try discriminate Heq.
    exists 5, 3. repeat split. discriminate. }
  split; [exact H|]. split; [reflexivity|].
  exact (delete_later_assignments_unique doubly_assigned H).
Defined.

(** Two rows of an order with the same creation time are both kept. *)
Lemma delete_later_assignments_tie :
  delete_later_assignments assigned_at_once = assigned_at_once.
Proof. reflexivity. Qed.

Lemma row_numbers_In (before after : list stored) (k : option uuid) (n : nat) :
  In (k, n) (row_numbers before after) <->
  exists pre r post,
    after = pre ++ r :: post /\ k = st_order_id r
    /\ n = S (List.length (filter (not_after r) (before ++ pre))
              + List.length (filter (sorts_before r) post)).
Proof.
  revert before. induction after as [|a t IH]; intros before; simpl.
  - split; [intros []|]. intros (pre & r & post & H & _). destruct pre; discriminate.
  - rewrite IH. split.
    + intros [H|(pre & r & post & -> & Hk & Hn)].
      * inversion H; subst. exists [], a, t. rewrite app_nil_r. auto.
      * exists (a :: pre), r, post. rewrite <- app_assoc in Hn. auto.
    + intros (pre & r & post & Heq & Hk & Hn). destruct pre as [|b pre].
      * inversion Heq; subst. left. rewrite app_nil_r. reflexivity.
      * inversion Heq; subst. right. exists pre, r, post.
        rewrite <- app_assoc. auto.
Qed.

Lemma same_partition_order (a b : stored) (order_id : uuid) :
  st_order_id b = Some order_id ->
  same_partition a b = sql_eq N.eqb (st_order_id a) (Some order_id).
Proof.
  intros Hb. unfold same_partition. rewrite Hb.
  destruct (st_order_id a); reflexivity.
Qed.

Lemma filter_nonempty_length {A : Type} (f : A -> bool) (l : list A) (x : A) :
  In x l -> f x = true -> (1 <= List.length (filter f l))%nat.
Proof.
  intros Hin Hf. assert (H : In x (filter f l)) by (apply filter_In; auto).
  destruct (filter f l); [destruct H | simpl; lia].
Qed.

Lemma filter_length_positive {A : Type} (f : A -> bool) (l : list A) :
  (1 <= List.length (filter f l))%nat -> exists x, In x l /\ f x = true.
Proof.
  destruct (filter f l) as [|x t] eqn:E; simpl; [lia|]. intros _.
  assert (H : In x (filter f l)) by (rewrite E; left; reflexivity).
  apply filter_In in H. eauto.
Qed.

(** An order is in [duplicates] with a row number above 1 exactly when it
    has two rows or more. *)
Lemma duplicated_order (rows : list stored) (order_id : uuid) :
  existsb (fun d => sql_eq N.eqb (Some order_id) (fst d) && (1 <? snd d)%nat)
          (duplicates rows) = true
  <-> (2 <= List.length (stored_of rows order_id))%nat.
Proof.
  rewrite existsb_exists. split.
  - intros ([k n] & Hin & Hd). apply andb_true_iff in Hd. destruct Hd as [Hk Hn].
    cbn [fst snd] in Hk, Hn. apply Nat.ltb_lt in Hn.
    apply sql_eq_N_true in Hk. destruct Hk as (x & Hx & Hk). inversion Hx; subst x.
    apply row_numbers_In in Hin. destruct Hin as (pre & r & post & -> & Hr & ->).
    rewrite Hk in Hr. symmetry in Hr. cbn [app] in Hn.
    unfold stored_of. rewrite filter_app. cbn [filter]. rewrite Hr.
    cbn [sql_eq]. rewrite N.eqb_refl, length_app. cbn [List.length].
    assert (Hother : (1 <= List.length (filter (not_after r) pre))%nat
                     \/ (1 <= List.length (filter (sorts_before r) post))%nat) by lia.
    destruct Hother as [H|H]; apply filter_length_positive in H;
      destruct H as (x & Hx' & Hf); unfold not_after, sorts_before in Hf;
      apply andb_true_iff in Hf; destruct Hf as [Hp _];
      rewrite (same_partition_order _ _ _ Hr) in Hp.
    + pose proof (filter_nonempty_length
                    (fun r => sql_eq N.eqb (st_order_id r) (Some order_id))
                    pre x Hx' Hp). lia.
    + pose proof (filter_nonempty_length
                    (fun r => sql_eq N.eqb (st_order_id r) (Some order_id))
                    post x Hx' Hp). lia.
  - intros Hlen. unfold stored_of in Hlen.
    assert (Hsplit : exists l1 a l2 b l3,
               rows = l1 ++ a :: l2 ++ b :: l3
               /\ st_order_id a = Some order_id /\ st_order_id b = Some order_id).
    { clear -Hlen. induction rows as [|x t IH]; simpl in Hlen; [lia|].
      destruct (sql_eq N.eqb (st_order_id x) (Some order_id)) eqn:Ex.
      - simpl in Hlen.
        assert (H1 : (1 <= List.length
                             (filter (fun r => sql_eq N.eqb (st_order_id r)
                                                 (Some order_id)) t))%nat) by lia.
        apply filter_length_positive in H1. destruct H1 as (b & Hb & Hbo).
        apply in_split in Hb. destruct Hb as (l2 & l3 & ->).
        apply sql_eq_N_true in Ex, Hbo.
        destruct Ex as (u & Hu & Hu'), Hbo as (v & Hv & Hv').
        inversion Hu'; inversion Hv'; subst.
        exists [], x, l2, b, l3. auto.
      - destruct (IH Hlen) as (l1 & a & l2 & b & l3 & -> & Ha & Hb).
        exists (x :: l1), a, l2, b, l3. auto. }
    destruct Hsplit as (l1 & a & l2 & b & l3 & -> & Ha & Hb).
    destruct (created_before (st_created_at b) (st_created_at a)) eqn:Eab.
    + exists (Some order_id,
              S (List.length (filter (not_after a) ([] ++ l1))
                 + List.length (filter (sorts_before a) (l2 ++ b :: l3)))).
      split.
      * apply row_numbers_In. exists l1, a, (l2 ++ b :: l3). auto.
      * cbn [fst snd sql_eq]. rewrite N.eqb_refl. simpl andb. apply Nat.ltb_lt.
        assert (H : (1 <= List.length (filter (sorts_before a) (l2 ++ b :: l3)))%nat).
        { apply (filter_nonempty_length _ _ b).
          - apply in_or_app. right. left. reflexivity.
          - unfold sorts_before. rewrite (same_partition_order _ _ _ Ha), Hb, Eab.
            simpl. rewrite N.eqb_refl. reflexivity. }
        lia.
    + exists (Some order_id,
              S (List.length (filter (not_after b) ([] ++ (l1 ++ a :: l2)))
                 + List.length (filter (sorts_before b) l3))).
      split.
      * apply row_numbers_In. exists (l1 ++ a :: l2), b, l3.
        rewrite <- app_assoc. auto.
      * cbn [fst snd sql_eq]. rewrite N.eqb_refl. simpl andb. apply Nat.ltb_lt.
        assert (H : (1 <= List.length
                            (filter (not_after b) ([] ++ (l1 ++ a :: l2))))%nat).
        { apply (filter_nonempty_length _ _ a).
          - simpl. apply in_or_app. right. left. reflexivity.
          - unfold not_after. rewrite (same_partition_order _ _ _ Hb), Ha, Eab.
            simpl. rewrite N.eqb_refl. reflexivity. }
        cbn [app] in H |- *. lia.
Qed.

Lemma stored_of_filter (keep : stored -> bool) (rows : list stored) (order_id : uuid)
    (b : bool) :
  (forall r, In r rows -> st_order_id r = Some order_id -> keep r = b) ->
  stored_of (filter keep rows) order_id
  = if b then stored_of rows order_id else [].
Proof.
  intros H. unfold stored_of. induction rows as [|r t IH]; simpl.
  - destruct b; reflexivity.
  - assert (IH' := IH (fun x Hx => H x (or_intror Hx))). clear IH.
    destruct (sql_eq N.eqb (st_order_id r) (Some order_id)) eqn:E.
    + assert (Hk : keep r = b).
      { apply H; [left; reflexivity|]. apply sql_eq_N_true in E.
        destruct E as (x & Hx & Hx'). inversion Hx'; subst. exact Hx. }
      rewrite Hk. destruct b; simpl; rewrite ?E, IH'; reflexivity.
    + destruct (keep r); simpl; rewrite ?E; exact IH'.
Qed.

Lemma delete_duplicated_orders_of (rows : list stored) (order_id : uuid) :
  stored_of (delete_duplicated_orders rows) order_id
  = if (2 <=? List.length (stored_of rows order_id))%nat then []
    else stored_of rows order_id.
Proof.
  unfold delete_duplicated_orders.
  rewrite (stored_of_filter _ rows order_id
             (negb (2 <=? List.length (stored_of rows order_id))%nat)).
  - destruct (2 <=? _)%nat; reflexivity.
  - intros r _ Hr. rewrite Hr. f_equal.
    destruct (Nat.leb_spec 2 (List.length (stored_of rows order_id))) as [Hle|Hlt].
    + apply duplicated_order. exact Hle.
    + apply Bool.not_true_iff_false. intros H. apply duplicated_order in H. lia.
Qed.

Lemma assignments_of_stored (rows : list stored) (order_id : uuid) :
  assignments_of (map st_row rows) order_id = map st_row (stored_of rows order_id).
Proof.
  unfold assignments_of, stored_of, st_order_id.
  induction rows as [|r t IH]; simpl; [reflexivity|].
  destruct (sql_eq N.eqb (po_order_id (st_row r)) (Some order_id)); simpl;
    rewrite IH; reflexivity.
Qed.

(** X15: the cleanup of the migration that first adds the unique constraint
    deletes all the rows of an order that is assigned twice or more, the
    first assignment too; an order with one assignment keeps it and a row
    without an order is kept.  Whatever the creation times, the table has
    at most one row for every order afterwards. *)
Theorem delete_duplicated_orders_drops_all (rows : list stored) :
  at_most_one_assignment (map st_row (delete_duplicated_orders rows))
  /\ (forall order_id, (2 <= List.length (stored_of rows order_id))%nat ->
                       stored_of (delete_duplicated_orders rows) order_id = [])
  /\ (forall order_id, (List.length (stored_of rows order_id) <= 1)%nat ->
                       stored_of (delete_duplicated_orders rows) order_id
                       = stored_of rows order_id)
  /\ (forall r, In r rows -> st_order_id r = None ->
                In r (delete_duplicated_orders rows)).
Proof.
  split; [|split; [|split]].
  - intros order_id. rewrite assignments_of_stored, length_map.
    rewrite delete_duplicated_orders_of.
    destruct (Nat.leb_spec 2 (List.length (stored_of rows order_id))); simpl; lia.
  - intros order_id H. rewrite delete_duplicated_orders_of.
    apply Nat.leb_le in H. rewrite H. reflexivity.
  - intros order_id H. rewrite delete_duplicated_orders_of.
    destruct (Nat.leb_spec 2 (List.length (stored_of rows order_id))); [lia|].
    reflexivity.
  - intros r Hin Hnull. apply filter_In. split; [exact Hin|].
    apply negb_true_iff. apply existsb_all_false. intros d _. rewrite Hnull.
    reflexivity.
Qed.

(** On [doubly_assigned] the two statements differ: one keeps the earlier
    assignment of order 11, the other none. *)
Lemma cleanup_statements_differ :
  map (fun r => po_id (st_row r)) (delete_later_assignments doubly_assigned)
  = [61%N; 62%N]
  /\ map (fun r => po_id (st_row r)) (delete_duplicated_orders doubly_assigned)
     = [62%N].
Proof. split; reflexivity. Qed.

(** ** The driver of the single-order path *)

Lemma available_driver_eligible (db : database) (facility_id : option uuid) (day : date)
    (r : driver * facility_driver) :
  In r (filter (fun r : driver * facility_driver =>
                  sql_eq N.eqb (fd_facility_id (snd r)) facility_id
                  && d_status (fst r)
                  && negb (existsb (fun dp => 15 <=? count_package_orders db (dp_id dp))%nat
                                   (packages_of db (Some (d_id (fst r))) (Some day))))
          (flat_map (fun d =>
                       flat_map (fun fd =>
                                   if sql_eq N.eqb (Some (d_id d)) (fd_driver_id fd)
                                   then [(d, fd)] else [])
                                (facility_drivers db))
                    (drivers db)))
  <-> In (fst r) (drivers db) /\ In (snd r) (facility_drivers db)
      /\ fd_driver_id (snd r) = Some (d_id (fst r))
      /\ sql_eq N.eqb (fd_facility_id (snd r)) facility_id = true
      /\ d_status (fst r) = true
      /\ forall dp, In dp (packages_of db (Some (d_id (fst r))) (Some day)) ->
                    (count_package_orders db (dp_id dp) < 15)%nat.
Proof.
  rewrite filter_In, in_flat_map, !andb_true_iff, negb_true_iff. split.
  - intros [(drv & Hdrv & Hj) [[Hfac Hst] Hfull]].
    apply in_flat_map in Hj. destruct Hj as (fd & Hfd & Hj).
    destruct (sql_eq N.eqb (Some (d_id drv)) (fd_driver_id fd)) eqn:Ej; [|destruct Hj].
    destruct Hj as [<-|[]]. cbn [fst snd] in *.
    apply sql_eq_N_true in Ej. destruct Ej as (x & Hx1 & Hx2). inversion Hx1; subst x.
    repeat split; auto.
    intros dp Hdp.
    destruct (Nat.ltb_spec (count_package_orders db (dp_id dp)) 15) as [Hlt|Hge];
      [exact Hlt|exfalso].
    apply Bool.not_true_iff_false in Hfull. apply Hfull.
    apply existsb_exists. exists dp. split; [exact Hdp|].
    apply Nat.leb_le. exact Hge.
  - intros (Hdrv & Hfd & Hid & Hfac & Hst & Hroom). destruct r as [drv fd].
    cbn [fst snd] in *. split; [|split; [split; assumption|]].
    + exists drv. split; [exact Hdrv|]. apply in_flat_map. exists fd.
      split; [exact Hfd|]. rewrite Hid. simpl. rewrite N.eqb_refl. left. reflexivity.
    + apply existsb_all_false. intros dp Hdp. apply Nat.leb_gt. apply Hroom. exact Hdp.
Qed.

(** X16: [find_available_driver] returns a driver that is active, serves
    the facility and has no package with 15 orders for the day, and none
    of these drivers has fewer orders in packages for the day; it returns
    NULL exactly when there is no such driver.  The time of the delivery
    plays no part. *)
Theorem find_available_driver_least_loaded (db : database) (facility_id : option uuid)
    (day : date) (t : option time) :
  match find_available_driver db facility_id (Some day) t with
  | None => forall d, ~ eligible_driver db facility_id day d
  | Some d =>
      eligible_driver db facility_id day d
      /\ forall d', eligible_driver db facility_id day d' ->
                    (orders_of_driver db d (Some day)
                     <= orders_of_driver db d' (Some day))%nat
  end.
Proof.
  unfold find_available_driver.
  match goal with
  | |- match option_map _ (first_min ?lt ?l) with _ => _ end =>
      set (less := lt); set (available := l);
      destruct (first_min less available) as [r|] eqn:E; cbn [option_map]
  end.
  - assert (Hin : In r available) by (eapply first_min_In; exact E).
    apply available_driver_eligible in Hin.
    destruct Hin as (Hdrv & Hfd & Hid & Hfac & Hst & Hroom).
    split.
    + exists (fst r), (snd r). auto 10.
    + intros d' (drv & fd & Hdrv' & Hfd' & Hid' & Hfdid & Hfac' & Hst' & Hroom').
      apply first_min_split in E.
      * destruct E as (pre & post & Hsplit & Hpre & Hpost).
        assert (Hin' : In (drv, fd) available).
        { apply available_driver_eligible. cbn [fst snd]. rewrite Hid'. auto 10. }
        rewrite Hsplit in Hin'. apply in_app_or in Hin'.
        destruct Hin' as [Hin'|[Heq|Hin']].
        -- specialize (Hpre _ Hin'). unfold less in Hpre. cbn [fst] in Hpre.
           apply Nat.ltb_lt in Hpre. rewrite Hid' in Hpre. lia.
        -- rewrite Heq. cbn [fst]. rewrite Hid'. lia.
        -- specialize (Hpost _ Hin'). unfold less in Hpost. cbn [fst] in Hpost.
           apply Nat.ltb_ge in Hpost. rewrite Hid' in Hpost. exact Hpost.
      * unfold less. intros a b H. apply Nat.ltb_lt in H. apply Nat.ltb_ge. lia.
      * unfold less. intros a b c H1 H2. apply Nat.ltb_ge in H1, H2.
        apply Nat.ltb_ge. lia.
  - apply first_min_nil in E. intros d (drv & fd & Hdrv & Hfd & Hid & Hfdid & Hrest).
    assert (Hin : In (drv, fd) available).
    { apply available_driver_eligible. cbn [fst snd]. rewrite Hid. tauto. }
    rewrite E in Hin. exact Hin.
Qed.





(** ** The batch run: what it leaves alone *)

Lemma generate_driver_packages_for_idle (random : nat -> R) (fuel : nat)
    (shift_date : date) (fs : list facility) (db : database) :
  (forall f, In f fs -> unassigned_orders db (f_id f) shift_date = []) ->
  generate_driver_packages_for random fuel shift_date fs db = Ok (tt, db).
Proof.
  unfold generate_driver_packages_for.
  induction fs as [|f rest IH]; intros Hidle; simpl; [reflexivity|].
  assert (Hf : try_catch (process_facility random fuel shift_date f)
                 (log_generation_error f) db = Ok (tt, db)).
  { unfold try_catch, process_facility. rewrite bind_get. cbv beta zeta.
    rewrite (Hidle f) by (left; reflexivity). reflexivity. }
  rewrite (bind_Ok_eq _ _ db db tt Hf). apply IH.
  intros g Hg. apply Hidle. right. exact Hg.
Qed.

(** X18: a run of [generate_driver_packages] for a date for which no active
    facility has an order to dispatch (in 'processing', for that date,
    without a driver) returns at once, for any fuel, and changes nothing:
    no package, no assignment, no log entry. *)
Theorem generate_driver_packages_nothing_to_do (random : nat -> R) (fuel : nat)
    (shift_date : date) (db : database) :
  (forall f, In f (facilities db) -> f_status f = true ->
             unassigned_orders db (f_id f) shift_date = []) ->
  generate_driver_packages random fuel shift_date db = Ok (tt, db).
Proof.
  intros Hidle. unfold generate_driver_packages. rewrite bind_get.
  apply generate_driver_packages_for_idle. intros f Hf.
  apply filter_In in Hf. destruct Hf as [Hin Hst]. apply Hidle; assumption.
Qed.

Lemma generate_driver_packages_nothing_to_do_witness :
  generate_driver_packages no_random 0 2 no_driver_db = Ok (tt, no_driver_db).
Proof.
  apply (generate_driver_packages_nothing_to_do no_random 0 2 no_driver_db).
  intros f [<-|[]] _. reflexivity.
Defined.

#[export] Instance packages_added_PreOrder (fs : list facility) (shift_date : date) :
  PreOrder (packages_added fs shift_date).
Proof.
  split.
  - intros db. exists []. rewrite app_nil_r. auto.
  - intros x y z (l1 & H1 & F1) (l2 & H2 & F2). exists (l1 ++ l2).
    rewrite H2, H1, app_assoc. split; [reflexivity|]. apply Forall_app. auto.
Qed.








(** ** The later facility trigger *)

(** X20: the later [assign_nearest_facility] writes nothing and either
    raises 'No facility available for the specified delivery time', exactly
    when no active facility is open at the time of day of the delivery, or
    returns the order with an active, open facility to which no other open
    facility is nearer as points in the plane; a facility is never nearer
    than another when the order has no coordinates, and then the first open
    facility of the scan is taken. *)
Theorem schema_update_assign_nearest_facility_spec (NEW : order) (db : database) :
  match schema_update.assign_nearest_facility NEW db with
  | Ok (NEW', db') =>
      db' = db
      /\ exists f pre post,
          NEW' = set_facility NEW (Some (f_id f))
          /\ In f (facilities db) /\ f_status f = true
          /\ open_facilities db (time_of (o_estimated_delivery NEW)) = pre ++ f :: post
          /\ (forall g, In g pre ->
                key_lt (schema_update.point_distance (f_longitude f) (f_latitude f)
                          (o_longitude NEW) (o_latitude NEW))
                       (schema_update.point_distance (f_longitude g) (f_latitude g)
                          (o_longitude NEW) (o_latitude NEW)) = true)
          /\ (forall g, In g post ->
                key_lt (schema_update.point_distance (f_longitude g) (f_latitude g)
                          (o_longitude NEW) (o_latitude NEW))
                       (schema_update.point_distance (f_longitude f) (f_latitude f)
                          (o_longitude NEW) (o_latitude NEW)) = false)
          /\ ((o_longitude NEW = None \/ o_latitude NEW = None) -> pre = [])
  | Raise e =>
      e = NoFacilityAvailable
      /\ open_facilities db (time_of (o_estimated_delivery NEW)) = []
  | OutOfFuel => False
  end.
Proof.
  unfold schema_update.assign_nearest_facility. rewrite bind_get. cbv beta zeta.
  match goal with
  | |- context [first_min ?lt ?l] =>
      set (nearer := lt); destruct (first_min nearer l) as [f|] eqn:E
  end; cbn [option_map is_null].
  - split; [reflexivity|].
    apply first_min_split in E.
    + destruct E as (pre & post & Hsplit & Hpre & Hpost).
      assert (Hopen : In f (open_facilities db (time_of (o_estimated_delivery NEW)))).
      { rewrite Hsplit. apply in_or_app. right. left. reflexivity. }
      apply open_facilities_In in Hopen. destruct Hopen as (Hin & Hst & _).
      exists f, pre, post. split; [reflexivity|]. split; [exact Hin|].
      split; [exact Hst|]. split; [exact Hsplit|].
      split; [exact Hpre|]. split; [exact Hpost|].
      intros Hnull. destruct pre as [|g pre]; [reflexivity|exfalso].
      specialize (Hpre g (or_introl eq_refl)). unfold nearer in Hpre.
      unfold schema_update.point_distance in Hpre.
      destruct Hnull as [Hn|Hn]; rewrite Hn in Hpre;
        [|destruct (o_longitude NEW)]; discriminate Hpre.
    + unfold nearer. intros a b H.
      destruct (schema_update.point_distance _ _ _ _) as [x|] eqn:Ex in H;
        [|discriminate H].
      destruct (schema_update.point_distance (f_longitude b) _ _ _) as [y|] eqn:Ey.
      * rewrite Ex. simpl in *. apply Rltb_true in H. apply Rltb_false. lra.
      * reflexivity.
    + unfold nearer. intros a b c H1 H2.
      destruct (schema_update.point_distance (f_longitude a) _ _ _) as [x|] eqn:Ex;
        destruct (schema_update.point_distance (f_longitude b) _ _ _) as [y|] eqn:Ey;
        destruct (schema_update.point_distance (f_longitude c) _ _ _) as [z|] eqn:Ez;
        simpl in *; try reflexivity; try discriminate.
      apply Rltb_false in H1, H2. apply Rltb_false. lra.
  - split; [reflexivity|]. apply first_min_nil in E. exact E.
Qed.

(** ** The guard on the status of the driver *)

Lemma validate_driver_status_inactive (NEW : order) (d : uuid) (db : database) :
  o_assigned_driver_id NEW = Some d ->
  (forall drv, In drv (drivers db) -> d_id drv = d -> d_status drv = false) ->
  white_bar.validate_driver_status NEW db = Raise InactiveDriver.
Proof.
  intros Hd Hinactive. unfold white_bar.validate_driver_status.
  rewrite bind_get. cbv beta. rewrite Hd. cbn [is_not_null is_null negb].
  rewrite existsb_all_false; [reflexivity|].
  intros drv Hdrv. simpl. destruct (N.eqb_spec (d_id drv) d) as [Heq|Hne];
    [|reflexivity].
  simpl. apply Hinactive; assumption.
Qed.

Lemma update_orders_from_inactive (p : order -> bool) (d : uuid)
    (done todo : list order) (db : database) (o : order) :
  In o todo -> p o = true ->
  (forall drv, In drv (drivers db) -> d_id drv = d -> d_status drv = false) ->
  update_orders_from p (Some d) done todo db = Raise InactiveDriver.
Proof.
  intros Hin Hp Hinactive. revert done.
  induction todo as [|x rest IH]; intros done; [destruct Hin|]. simpl.
  destruct (p x) eqn:Ex.
  - apply bind_Raise. unfold orders_before_update_of_assigned_driver_id.
    apply bind_Raise. apply (validate_driver_status_inactive _ d); [reflexivity|].
    exact Hinactive.
  - destruct Hin as [->|Hin]; [congruence|]. apply IH. exact Hin.
Qed.

(** X21: [UPDATE orders SET assigned_driver_id = d] for a driver that is not
    active, or that is not in [drivers], is refused with 'Orders can only
    be assigned to active drivers' as soon as the statement has a row to
    update; setting the driver to NULL is never refused. *)
Theorem inactive_driver_refused (p : order -> bool) (d : uuid) (db : database)
    (o : order) :
  In o (orders db) -> p o = true ->
  (forall drv, In drv (drivers db) -> d_id drv = d -> d_status drv = false) ->
  update_orders_assigned_driver_id p (Some d) db = Raise InactiveDriver
  /\ exists db', update_orders_assigned_driver_id p None db = Ok (tt, db').
Proof.
  intros Hin Hp Hinactive. unfold update_orders_assigned_driver_id.
  rewrite !bind_get. split.
  - eapply update_orders_from_inactive; eauto.
  - apply update_orders_from_null.
Qed.

Lemma inactive_driver_refused_witness :
  update_orders_assigned_driver_id (fun o => (o_id o =? 11)%N) (Some 7%N)
    inactive_driver_db = Raise InactiveDriver
  /\ exists db',
      update_orders_assigned_driver_id (fun o => (o_id o =? 11)%N) None
        inactive_driver_db = Ok (tt, db').
Proof.
  apply (inactive_driver_refused _ 7%N inactive_driver_db (processing_order 11%N 1%N)).
  - left. reflexivity.
  - reflexivity.
  - intros drv [<-|[]] _. reflexivity.
Defined.

(** ** The catalog: what the triggers keep *)

Import catalog.

Lemma and_then_Accepted {A B : Type} (r : result A) (k : A -> result B) (b : B) :
  and_then r k = Accepted b <-> exists a, r = Accepted a /\ k a = Accepted b.
Proof.
  destruct r as [a|e]; simpl; split.
  - eauto.
  - intros (a' & Ha & Hk). inversion Ha; subst. exact Hk.
  - discriminate.
  - intros (a' & Ha & _). discriminate.
Qed.

Lemma validate_category_status_Accepted (t : tables) (NEW r : item) :
  validate_category_status t NEW = Accepted r ->
  r = NEW /\ exists c, In c (categories t) /\ i_category_id NEW = Some (c_id c)
                       /\ c_status c = true.
Proof.
  unfold validate_category_status.
  destruct (existsb _ (categories t)) eqn:E; simpl; [|discriminate].
  intros H. inversion H; subst. split; [reflexivity|].
  apply existsb_exists in E. destruct E as (c & Hc & E).
  apply andb_true_iff in E. destruct E as [Hid Hst].
  apply sql_eq_N_true in Hid. destruct Hid as (x & Hx & Hx'). inversion Hx; subst x.
  exists c. split; [exact Hc|]. split; [exact Hx'|exact Hst].
Qed.

Lemma validate_service_status_Accepted (t : tables) (NEW r : item) :
  validate_service_status t NEW = Accepted r ->
  r = NEW /\ exists s, In s (services t) /\ i_service_id NEW = Some (s_id s)
                       /\ s_status s = true.
Proof.
  unfold validate_service_status.
  destruct (existsb _ (services t)) eqn:E; simpl; [|discriminate].
  intros H. inversion H; subst. split; [reflexivity|].
  apply existsb_exists in E. destruct E as (s & Hs & E).
  apply andb_true_iff in E. destruct E as [Hid Hst].
  apply sql_eq_N_true in Hid. destruct Hid as (x & Hx & Hx'). inversion Hx; subst x.
  exists s. split; [exact Hs|]. split; [exact Hx'|exact Hst].
Qed.

Lemma check_category_item_limit_Accepted (t : tables) (NEW r : item) :
  check_category_item_limit t NEW = Accepted r ->
  r = NEW
  /\ (List.length (filter (fun i => sql_eq N.eqb (i_category_id i) (i_category_id NEW))
                          (items t)) <= 2)%nat.
Proof.
  unfold check_category_item_limit.
  destruct (Nat.leb_spec 3 (List.length
                              (filter (fun i => sql_eq N.eqb (i_category_id i)
                                                  (i_category_id NEW)) (items t))))
    as [Hle|Hlt]; [discriminate|].
  intros H. inversion H; subst. split; [reflexivity|lia].
Qed.

Lemma validate_service_category_match_Accepted (t : tables) (NEW r : item) :
  validate_service_category_match t NEW = Accepted r -> r = NEW.
Proof.
  unfold validate_service_category_match. destruct (sql_neq _ _ _); [discriminate|].
  intros H. inversion H. reflexivity.
Qed.

Lemma prevent_category_change_Accepted (OLD NEW r : item) :
  prevent_category_change OLD NEW = Accepted r -> r = NEW.
Proof.
  unfold prevent_category_change. destruct (sql_neq _ _ _); [discriminate|].
  intros H. inversion H. reflexivity.
Qed.

Lemma prevent_service_change_Accepted (OLD NEW r : item) :
  prevent_service_change OLD NEW = Accepted r -> r = NEW.
Proof.
  unfold prevent_service_change. destruct (sql_neq _ _ _); [discriminate|].
  intros H. inversion H. reflexivity.
Qed.

Lemma items_constraints_Accepted (others : list item) (NEW r : item) :
  items_constraints others NEW = Accepted r ->
  r = NEW /\ i_category_id NEW <> None /\ i_service_id NEW <> None
  /\ (forall i, In i others -> i_id i <> i_id NEW).
Proof.
  unfold items_constraints.
  destruct (i_category_id NEW) as [c|]; [|discriminate].
  destruct (i_service_id NEW) as [s|]; [|discriminate]. cbn [is_null].
  destruct (existsb (fun i => (i_id i =? i_id NEW)%N) others) eqn:Epk; [discriminate|].
  destruct (existsb (fun i => sql_eq N.eqb (i_category_id i) (Some c)
                              && String.eqb (i_name i) (i_name NEW)) others);
    [discriminate|].
  intros H. inversion H; subst.
  split; [reflexivity|]. split; [discriminate|]. split; [discriminate|].
  intros i Hi Heq. apply Bool.not_true_iff_false in Epk. apply Epk.
  apply existsb_exists. exists i. split; [exact Hi|]. apply N.eqb_eq. exact Heq.
Qed.

Lemma insert_items_Accepted (NEW : item) (t t' : tables) :
  insert_items NEW t = Accepted t' ->
  t' = set_items t (items t ++ [NEW])
  /\ validate_category_status t NEW = Accepted NEW
  /\ validate_service_status t NEW = Accepted NEW
  /\ check_category_item_limit t NEW = Accepted NEW
  /\ validate_service_category_match t NEW = Accepted NEW
  /\ items_constraints (items t) NEW = Accepted NEW.
Proof.
  unfold insert_items, items_before_insert. intros H.
  repeat (apply and_then_Accepted in H; destruct H as (? & ? & H)).
  repeat match goal with
         | Hx : and_then _ _ = Accepted _ |- _ =>
             apply and_then_Accepted in Hx; destruct Hx as (? & ? & Hx)
         end.
  repeat match goal with
         | Hx : validate_category_status _ _ = Accepted _ |- _ =>
             pose proof (proj1 (validate_category_status_Accepted _ _ _ Hx)); subst;
             revert Hx
         | Hx : validate_service_status _ _ = Accepted _ |- _ =>
             pose proof (proj1 (validate_service_status_Accepted _ _ _ Hx)); subst;
             revert Hx
         | Hx : check_category_item_limit _ _ = Accepted _ |- _ =>
             pose proof (proj1 (check_category_item_limit_Accepted _ _ _ Hx)); subst;
             revert Hx
         | Hx : validate_service_category_match _ _ = Accepted _ |- _ =>
             pose proof (validate_service_category_match_Accepted _ _ _ Hx); subst;
             revert Hx
         | Hx : items_constraints _ _ = Accepted _ |- _ =>
             pose proof (proj1 (items_constraints_Accepted _ _ _ Hx)); subst;
             revert Hx
         end.
  intros. inversion H; subst. auto 10.
Qed.

Lemma items_before_update_Accepted (t : tables) (OLD NEW r : item) :
  items_before_update t OLD NEW = Accepted r ->
  r = NEW
  /\ validate_category_status t NEW = Accepted NEW
  /\ validate_service_status t NEW = Accepted NEW
  /\ (i_category_id OLD <> None -> prevent_category_change OLD NEW = Accepted NEW)
  /\ (i_service_id OLD <> None -> prevent_service_change OLD NEW = Accepted NEW).
Proof.
  unfold items_before_update. intros H.
  apply and_then_Accepted in H. destruct H as (n1 & H1 & H).
  pose proof (proj1 (validate_category_status_Accepted _ _ _ H1)); subst n1.
  apply and_then_Accepted in H. destruct H as (n2 & H2 & H).
  pose proof (proj1 (validate_service_status_Accepted _ _ _ H2)); subst n2.
  apply and_then_Accepted in H. destruct H as (n3 & H3 & H).
  assert (E3 : n3 = NEW
               /\ (i_category_id OLD <> None ->
                   prevent_category_change OLD NEW = Accepted NEW)).
  { destruct (i_category_id OLD) eqn:E; cbn [is_not_null is_null negb] in H3.
    - pose proof (prevent_category_change_Accepted _ _ _ H3); subst n3.
      split; [reflexivity|]. intros _. unfold prevent_category_change.
      exact H3.
    - inversion H3. split; [reflexivity|]. congruence. }
  destruct E3 as [-> E3].
  apply and_then_Accepted in H. destruct H as (n4 & H4 & H).
  assert (E4 : n4 = NEW
               /\ (i_service_id OLD <> None ->
                   prevent_service_change OLD NEW = Accepted NEW)).
  { destruct (i_service_id OLD) eqn:E; cbn [is_not_null is_null negb] in H4.
    - pose proof (prevent_service_change_Accepted _ _ _ H4); subst n4.
      split; [reflexivity|]. intros _. unfold prevent_service_change.
      exact H4.
    - inversion H4. split; [reflexivity|]. congruence. }
  destruct E4 as [-> E4].
  apply validate_service_category_match_Accepted in H. auto.
Qed.

Lemma item_updated_refl (t : tables) (set : item -> item) (l : list item) :
  Forall2 (item_updated t set) l l.
Proof. induction l; constructor; [left; reflexivity | assumption]. Qed.

Lemma update_items_from_Accepted (p : item -> bool) (set : item -> item)
    (done todo : list item) (t t' : tables) :
  items t = done ++ todo ->
  update_items_from p set done todo t = Accepted t' ->
  services t' = services t /\ categories t' = categories t
  /\ exists todo', items t' = done ++ todo'
                   /\ Forall2 (item_updated t set) todo todo'.
Proof.
  revert done t. induction todo as [|i rest IH]; intros done t Hrows H; simpl in H.
  - inversion H; subst. split; [reflexivity|]. split; [reflexivity|].
    exists []. split; [exact Hrows|constructor].
  - destruct (p i) eqn:Ep.
    + apply and_then_Accepted in H. destruct H as (n1 & H1 & H).
      apply items_before_update_Accepted in H1.
      destruct H1 as (-> & Hcat & Hsvc & Hcatfix & Hsvcfix).
      apply and_then_Accepted in H. destruct H as (n2 & H2 & H).
      apply items_constraints_Accepted in H2. destruct H2 as (-> & Hc & Hs & _).
      apply IH in H; [|simpl; rewrite <- app_assoc; reflexivity].
      destruct H as (Hsv & Hca & todo' & Hitems & Hall).
      split; [exact Hsv|]. split; [exact Hca|].
      exists (set i :: todo'). split; [rewrite Hitems, <- app_assoc; reflexivity|].
      constructor; [|exact Hall].
      right. auto 10.
    + apply IH in H; [|rewrite <- app_assoc; exact Hrows].
      destruct H as (Hsv & Hca & todo' & Hitems & Hall).
      split; [exact Hsv|]. split; [exact Hca|].
      exists (i :: todo'). split; [rewrite Hitems, <- app_assoc; reflexivity|].
      constructor; [left; reflexivity|exact Hall].
Qed.

Lemma update_items_Accepted (p : item -> bool) (set : item -> item) (t t' : tables) :
  update_items p set t = Accepted t' ->
  services t' = services t /\ categories t' = categories t
  /\ Forall2 (item_updated t set) (items t) (items t').
Proof.
  unfold update_items. intros H.
  apply (update_items_from_Accepted p set [] (items t) t t' eq_refl) in H.
  destruct H as (Hs & Hc & todo' & -> & Hall). auto.
Qed.

Lemma Forall2_In_right {A B : Type} (R : A -> B -> Prop) (l : list A) (l' : list B)
    (y : B) :
  Forall2 R l l' -> In y l' -> exists x, In x l /\ R x y.
Proof.
  intros H. induction H as [|a b l l' Hab _ IH]; intros Hin; [destruct Hin|].
  destruct Hin as [<-|Hin].
  - exists a. split; [left; reflexivity | exact Hab].
  - destruct (IH Hin) as (x & Hx & Hxy). exists x. split; [right; exact Hx | exact Hxy].
Qed.

(** X22: an item cannot be moved: an [UPDATE] of [items] that is accepted
    leaves the service and the category of every row as they were (for rows
    that had them, as every row of the table has), and leaves [services]
    and [categories] alone. *)
Theorem items_stay_in_their_service (p : item -> bool) (set : item -> item)
    (t t' : tables) :
  update_items p set t = Accepted t' ->
  services t' = services t /\ categories t' = categories t
  /\ Forall2 (fun i i' =>
                (i_service_id i <> None -> i_service_id i' = i_service_id i)
                /\ (i_category_id i <> None -> i_category_id i' = i_category_id i))
             (items t) (items t').
Proof.
  intros H. apply update_items_Accepted in H. destruct H as (Hs & Hc & Hall).
  split; [exact Hs|]. split; [exact Hc|].
  eapply Forall2_impl; [|exact Hall].
  intros i i' [->|(_ & _ & _ & Hcat & Hsvc & Hcn & Hsn)]; [auto|].
  split.
  - intros Hn. specialize (Hsvc Hn). unfold prevent_service_change in Hsvc.
    destruct (i_service_id i) as [x|]; [|congruence].
    destruct (i_service_id i') as [y|]; [|congruence].
    simpl in Hsvc. destruct (N.eqb_spec x y); [congruence|discriminate].
  - intros Hn. specialize (Hcat Hn). unfold prevent_category_change in Hcat.
    destruct (i_category_id i) as [x|]; [|congruence].
    destruct (i_category_id i') as [y|]; [|congruence].
    simpl in Hcat. destruct (N.eqb_spec x y); [congruence|discriminate].
Qed.

Lemma items_stay_in_their_service_witness :
  exists t',
    update_items (fun i => (i_id i =? 1)%N) (rename "Blouses") small_catalog
    = Accepted t'
    /\ services t' = services small_catalog
    /\ categories t' = categories small_catalog
    /\ Forall2 (fun i i' =>
                  (i_service_id i <> None -> i_service_id i' = i_service_id i)
                  /\ (i_category_id i <> None -> i_category_id i' = i_category_id i))
               (items small_catalog) (items t').
Proof.
  eexists. split; [reflexivity|].
  apply (items_stay_in_their_service (fun i => (i_id i =? 1)%N) (rename "Blouses")
           small_catalog).
  reflexivity.
Defined.

Lemma validate_service_deactivation_Accepted (t : tables) (OLD NEW r : service) :
  validate_service_deactivation t OLD NEW = Accepted r ->
  r = NEW
  /\ (s_status OLD = true -> s_status NEW = false ->
      forall i, In i (items t) -> i_service_id i = Some (s_id OLD) ->
                i_status i = false).
Proof.
  unfold validate_service_deactivation.
  destruct (s_status OLD && negb (s_status NEW)
            && existsb (fun i => sql_eq N.eqb (i_service_id i) (Some (s_id OLD))
                                 && i_status i) (items t)) eqn:E; [discriminate|].
  intros H. inversion H; subst. split; [reflexivity|].
  intros Hold Hnew i Hi Hid. rewrite Hold, Hnew in E. simpl in E.
  destruct (i_status i) eqn:Est; [|reflexivity].
  assert (Hex : existsb (fun i => sql_eq N.eqb (i_service_id i) (Some (s_id OLD))
                                  && i_status i) (items t) = true).
  { apply existsb_exists. exists i. split; [exact Hi|].
    rewrite Est, Hid. simpl. rewrite N.eqb_refl. reflexivity. }
  congruence.
Qed.

Lemma validate_category_deactivation_Accepted (t : tables) (OLD NEW r : category) :
  validate_category_deactivation t OLD NEW = Accepted r ->
  r = NEW
  /\ (c_status OLD = true -> c_status NEW = false ->
      forall i, In i (items t) -> i_category_id i = Some (c_id OLD) ->
                i_status i = false).
Proof.
  unfold validate_category_deactivation.
  destruct (c_status OLD && negb (c_status NEW)
            && existsb (fun i => sql_eq N.eqb (i_category_id i) (Some (c_id OLD))
                                 && i_status i) (items t)) eqn:E; [discriminate|].
  intros H. inversion H; subst. split; [reflexivity|].
  intros Hold Hnew i Hi Hid. rewrite Hold, Hnew in E. simpl in E.
  destruct (i_status i) eqn:Est; [|reflexivity].
  assert (Hex : existsb (fun i => sql_eq N.eqb (i_category_id i) (Some (c_id OLD))
                                  && i_status i) (items t) = true).
  { apply existsb_exists. exists i. split; [exact Hi|].
    rewrite Est, Hid. simpl. rewrite N.eqb_refl. reflexivity. }
  congruence.
Qed.

(** What an accepted [UPDATE] of [services] has made of a row. *)
Lemma update_services_from_Accepted (p : service -> bool) (set : service -> service)
    (done todo : list service) (t t' : tables) :
  services t = done ++ todo ->
  update_services_from p set done todo t = Accepted t' ->
  items t' = items t /\ categories t' = categories t
  /\ exists todo',
       services t' = done ++ todo'
       /\ Forall2 (fun s s' =>
                     s' = s
                     \/ (s' = set s
                         /\ (s_status s = true -> s_status s' = false ->
                             forall i, In i (items t) ->
                                       i_service_id i = Some (s_id s) ->
                                       i_status i = false)))
                  todo todo'.
Proof.
  revert done t. induction todo as [|s rest IH]; intros done t Hrows H; simpl in H.
  - inversion H; subst. split; [reflexivity|]. split; [reflexivity|].
    exists []. split; [exact Hrows|constructor].
  - destruct (p s) eqn:Ep.
    + apply and_then_Accepted in H. destruct H as (n & Hn & H).
      assert (En : n = set s
                   /\ (s_status s = true -> s_status (set s) = false ->
                       forall i, In i (items t) -> i_service_id i = Some (s_id s) ->
                                 i_status i = false)).
      { destruct (Bool.eqb (s_status s) (s_status (set s))) eqn:Eb.
        - inversion Hn; subst. split; [reflexivity|].
          apply Bool.eqb_prop in Eb. congruence.
        - apply validate_service_deactivation_Accepted in Hn. exact Hn. }
      destruct En as [-> En].
      apply IH in H; [|simpl; rewrite <- app_assoc; reflexivity].
      destruct H as (Hit & Hca & todo' & Hsv & Hall).
      split; [exact Hit|]. split; [exact Hca|].
      exists (set s :: todo'). split; [rewrite Hsv, <- app_assoc; reflexivity|].
      constructor; [right; auto | exact Hall].
    + apply IH in H; [|rewrite <- app_assoc; exact Hrows].
      destruct H as (Hit & Hca & todo' & Hsv & Hall).
      split; [exact Hit|]. split; [exact Hca|].
      exists (s :: todo'). split; [rewrite Hsv, <- app_assoc; reflexivity|].
      constructor; [left; reflexivity | exact Hall].
Qed.

(** What an accepted [UPDATE] of [categories] has made of a row. *)
Lemma update_categories_from_Accepted (p : category -> bool)
    (set : category -> category) (done todo : list category) (t t' : tables) :
  categories t = done ++ todo ->
  update_categories_from p set done todo t = Accepted t' ->
  items t' = items t /\ services t' = services t
  /\ exists todo',
       categories t' = done ++ todo'
       /\ Forall2 (fun c c' =>
                     c' = c
                     \/ (c' = set c
                         /\ (c_status c = true -> c_status c' = false ->
                             forall i, In i (items t) ->
                                       i_category_id i = Some (c_id c) ->
                                       i_status i = false)))
                  todo todo'.
Proof.
  revert done t. induction todo as [|c rest IH]; intros done t Hrows H; simpl in H.
  - inversion H; subst. split; [reflexivity|]. split; [reflexivity|].
    exists []. split; [exact Hrows|constructor].
  - destruct (p c) eqn:Ep.
    + apply and_then_Accepted in H. destruct H as (n & Hn & H).
      assert (En : n = set c
                   /\ (c_status c = true -> c_status (set c) = false ->
                       forall i, In i (items t) -> i_category_id i = Some (c_id c) ->
                                 i_status i = false)).
      { destruct (Bool.eqb (c_status c) (c_status (set c))) eqn:Eb.
        - inversion Hn; subst. split; [reflexivity|].
          apply Bool.eqb_prop in Eb. congruence.
        - apply validate_category_deactivation_Accepted in Hn. exact Hn. }
      destruct En as [-> En].
      apply IH in H; [|simpl; rewrite <- app_assoc; reflexivity].
      destruct H as (Hit & Hsv & todo' & Hca & Hall).
      split; [exact Hit|]. split; [exact Hsv|].
      exists (set c :: todo'). split; [rewrite Hca, <- app_assoc; reflexivity|].
      constructor; [right; auto | exact Hall].
    + apply IH in H; [|rewrite <- app_assoc; exact Hrows].
      destruct H as (Hit & Hsv & todo' & Hca & Hall).
      split; [exact Hit|]. split; [exact Hsv|].
      exists (c :: todo'). split; [rewrite Hca, <- app_assoc; reflexivity|].
      constructor; [left; reflexivity | exact Hall].
Qed.

(** X23: the triggers keep every active item in an active service: when
    that holds of the catalog, it holds after every accepted [INSERT] or
    [UPDATE] of [items] and every accepted [UPDATE] of [services] or
    [categories] that leaves the primary keys alone. *)
Theorem active_items_stay_in_active_services (st : statement) (t t' : tables) :
  keeps_ids st ->
  active_items_in_active_services t ->
  execute st t = Accepted t' ->
  active_items_in_active_services t'.
Proof.
  intros Hids Hinv H. destruct st as [NEW|p set|p set|p set]; simpl in H.
  - apply insert_items_Accepted in H.
    destruct H as (-> & _ & Hsvc & _).
    apply validate_service_status_Accepted in Hsvc.
    destruct Hsvc as (_ & s & Hs & Hid & Hst).
    intros i Hi Hact. simpl in Hi. apply in_app_or in Hi.
    destruct Hi as [Hi|[<-|[]]]; [exact (Hinv i Hi Hact)|].
    exists s. auto.
  - apply update_items_Accepted in H. destruct H as (Hs & _ & Hall).
    intros i' Hi' Hact. rewrite Hs.
    destruct (Forall2_In_right _ _ _ _ Hall Hi') as (i & Hi & [->|Hup]).
    + exact (Hinv i Hi Hact).
    + destruct Hup as (_ & _ & Hsvc & _).
      apply validate_service_status_Accepted in Hsvc. exact (proj2 Hsvc).
  - unfold update_services in H.
    apply (update_services_from_Accepted p set [] (services t) t t' eq_refl) in H.
    destruct H as (Hit & _ & todo' & Hsv & Hall). simpl in Hsv.
    intros i Hi Hact. rewrite Hit in Hi.
    destruct (Hinv i Hi Hact) as (s & Hs & Hid & Hst).
    destruct (Forall2_In_left _ _ _ _ Hall Hs) as (s' & Hs' & Hup).
    rewrite Hsv. exists s'. split; [exact Hs'|].
    destruct Hup as [->|[-> Hup]]; [auto|].
    simpl in Hids. rewrite Hids. split; [exact Hid|].
    destruct (s_status (set s)) eqn:E; [reflexivity|].
    specialize (Hup Hst eq_refl i Hi Hid). congruence.
  - unfold update_categories in H.
    apply (update_categories_from_Accepted p set [] (categories t) t t' eq_refl) in H.
    destruct H as (Hit & Hsv & _).
    intros i Hi Hact. rewrite Hit in Hi. rewrite Hsv. exact (Hinv i Hi Hact).
Qed.

Lemma active_items_stay_in_active_services_witness :
  active_items_in_active_services
    (set_items small_catalog [shirts; trousers; jackets]).
Proof.
  apply (active_items_stay_in_active_services (INSERT_items jackets) small_catalog).
  - exact I.
  - intros i Hi _. exists {| s_id := 100%N; s_status := true |}.
    split; [left; reflexivity|].
    destruct Hi as [<-|[<-|[]]]; split; reflexivity.
  - reflexivity.
Defined.

(** X24: the triggers keep every active item in an active category, over
    the same statements. *)
Theorem active_items_stay_in_active_categories (st : statement) (t t' : tables) :
  keeps_ids st ->
  active_items_in_active_categories t ->
  execute st t = Accepted t' ->
  active_items_in_active_categories t'.
Proof.
  intros Hids Hinv H. destruct st as [NEW|p set|p set|p set]; simpl in H.
  - apply insert_items_Accepted in H.
    destruct H as (-> & Hcat & _).
    apply validate_category_status_Accepted in Hcat.
    destruct Hcat as (_ & c & Hc & Hid & Hst).
    intros i Hi Hact. simpl in Hi. apply in_app_or in Hi.
    destruct Hi as [Hi|[<-|[]]]; [exact (Hinv i Hi Hact)|].
    exists c. auto.
  - apply update_items_Accepted in H. destruct H as (_ & Hc & Hall).
    intros i' Hi' Hact. rewrite Hc.
    destruct (Forall2_In_right _ _ _ _ Hall Hi') as (i & Hi & [->|Hup]).
    + exact (Hinv i Hi Hact).
    + destruct Hup as (_ & Hcat & _).
      apply validate_category_status_Accepted in Hcat. exact (proj2 Hcat).
  - unfold update_services in H.
    apply (update_services_from_Accepted p set [] (services t) t t' eq_refl) in H.
    destruct H as (Hit & Hca & _).
    intros i Hi Hact. rewrite Hit in Hi. rewrite Hca. exact (Hinv i Hi Hact).
  - unfold update_categories in H.
    apply (update_categories_from_Accepted p set [] (categories t) t t' eq_refl) in H.
    destruct H as (Hit & _ & todo' & Hca & Hall). simpl in Hca.
    intros i Hi Hact. rewrite Hit in Hi.
    destruct (Hinv i Hi Hact) as (c & Hc & Hid & Hst).
    destruct (Forall2_In_left _ _ _ _ Hall Hc) as (c' & Hc' & Hup).
    rewrite Hca. exists c'. split; [exact Hc'|].
    destruct Hup as [->|[-> Hup]]; [auto|].
    simpl in Hids. rewrite Hids. split; [exact Hid|].
    destruct (c_status (set c)) eqn:E; [reflexivity|].
    specialize (Hup Hst eq_refl i Hi Hid). congruence.
Qed.

Lemma active_items_stay_in_active_categories_witness :
  active_items_in_active_categories
    (set_items small_catalog [rename "Blouses" shirts; trousers]).
Proof.
  apply (active_items_stay_in_active_categories
           (UPDATE_items (fun i => (i_id i =? 1)%N) (rename "Blouses")) small_catalog).
  - exact I.
  - intros i Hi _.
    exists {| c_id := 10%N; c_service_id := Some 100%N; c_status := true |}.
    split; [left; reflexivity|].
    destruct Hi as [<-|[<-|[]]]; split; reflexivity.
  - reflexivity.
Defined.

Lemma items_of_category_app (l l' : list item) (category_id : uuid) :
  items_of_category (l ++ l') category_id
  = items_of_category l category_id ++ items_of_category l' category_id.
Proof. unfold items_of_category. apply filter_app. Qed.

Lemma updated_items_keep_category (t : tables) (set : item -> item)
    (l l' : list item) :
  (forall i, In i l -> i_category_id i <> None) ->
  Forall2 (item_updated t set) l l' ->
  Forall2 (fun i i' => i_category_id i' = i_category_id i) l l'.
Proof.
  intros Hnn Hall. induction Hall as [|i i' l l' Hup _ IH]; constructor.
  - destruct Hup as [->|(_ & _ & _ & Hcat & _ & Hc' & _)]; [reflexivity|].
    pose proof (Hnn i (or_introl eq_refl)) as Hc. specialize (Hcat Hc).
    unfold prevent_category_change in Hcat.
    destruct (i_category_id i) as [x|]; [|congruence].
    destruct (i_category_id i') as [y|]; [|congruence].
    simpl in Hcat. destruct (N.eqb_spec x y); [congruence|discriminate].
  - apply IH. intros j Hj. apply Hnn. right. exact Hj.
Qed.

Lemma same_categories_same_count (l l' : list item) (category_id : uuid) :
  Forall2 (fun i i' => i_category_id i' = i_category_id i) l l' ->
  List.length (items_of_category l' category_id)
  = List.length (items_of_category l category_id).
Proof.
  intros H. induction H as [|i i' l l' E _ IH]; [reflexivity|].
  unfold items_of_category in *. cbn [filter]. rewrite E.
  destruct (sql_eq N.eqb (i_category_id i) (Some category_id)); cbn [List.length];
    rewrite IH; reflexivity.
Qed.

(** X25: no category gets a fourth item: when every item has a category
    and no category has more than 3 items, the same holds after every
    accepted [INSERT] or [UPDATE] of [items] and every accepted [UPDATE] of
    [services] or [categories]; the limit is checked on [INSERT] only, and
    holds after an [UPDATE] because an item cannot change its category. *)
Theorem categories_stay_within_limit (st : statement) (t t' : tables) :
  categories_within_limit t ->
  execute st t = Accepted t' ->
  categories_within_limit t'.
Proof.
  intros [Hnn Hlim] H. destruct st as [NEW|p set|p set|p set]; simpl in H.
  - apply insert_items_Accepted in H.
    destruct H as (-> & _ & _ & Hcount & _ & Hcon).
    apply check_category_item_limit_Accepted in Hcount. destruct Hcount as [_ Hcount].
    apply items_constraints_Accepted in Hcon. destruct Hcon as (_ & Hc & _).
    split; simpl.
    + intros i Hi. apply in_app_or in Hi. destruct Hi as [Hi|[<-|[]]]; auto.
    + intros category_id. rewrite items_of_category_app, length_app.
      specialize (Hlim category_id) as Hlim'.
      unfold items_of_category at 2. cbn [filter].
      destruct (sql_eq N.eqb (i_category_id NEW) (Some category_id)) eqn:E;
        cbn [List.length]; [|lia].
      apply sql_eq_N_true in E. destruct E as (x & Hx & Hx').
      inversion Hx'; subst x. rewrite Hx in Hcount.
      unfold items_of_category. cbn [List.length].
      rewrite Nat.add_1_r. apply le_n_S. exact Hcount.
  - apply update_items_Accepted in H. destruct H as (_ & _ & Hall).
    split.
    + intros i' Hi'.
      destruct (Forall2_In_right _ _ _ _ Hall Hi') as (i & Hi & [->|Hup]); [auto|].
      destruct Hup as (_ & _ & _ & _ & _ & Hc & _). exact Hc.
    + intros category_id.
      rewrite (same_categories_same_count (items t) (items t') category_id).
      * apply Hlim.
      * exact (updated_items_keep_category t set _ _ Hnn Hall).
  - unfold update_services in H.
    apply (update_services_from_Accepted p set [] (services t) t t' eq_refl) in H.
    destruct H as (Hit & _). unfold categories_within_limit. rewrite Hit. auto.
  - unfold update_categories in H.
    apply (update_categories_from_Accepted p set [] (categories t) t t' eq_refl) in H.
    destruct H as (Hit & _). unfold categories_within_limit. rewrite Hit. auto.
Qed.

Lemma categories_stay_within_limit_witness :
  categories_within_limit (set_items small_catalog [shirts; trousers; jackets]).
Proof.
  apply (categories_stay_within_limit (INSERT_items jackets) small_catalog).
  - split.
    + intros i [<-|[<-|[]]]; discriminate.
    + intros category_id. unfold items_of_category.
      apply Nat.le_trans with (List.length (items small_catalog));
        [apply filter_length_le | simpl; lia].
  - reflexivity.
Defined.

(** X26: a fourth item is refused: an [INSERT] into a category that has 3
    items or more raises 'Categories cannot have more than 3 items', when
    the category and the service of the new item are active. *)
Theorem fourth_item_refused (NEW : item) (category_id : uuid) (t : tables) :
  i_category_id NEW = Some category_id ->
  validate_category_status t NEW = Accepted NEW ->
  validate_service_status t NEW = Accepted NEW ->
  (3 <= List.length (items_of_category (items t) category_id))%nat ->
  insert_items NEW t = Refused category_full.
Proof.
  intros Hc Hcat Hsvc Hfull.
  unfold insert_items, items_before_insert. rewrite Hcat. simpl. rewrite Hsvc. simpl.
  unfold check_category_item_limit. rewrite Hc.
  fold (items_of_category (items t) category_id).
  destruct (Nat.leb_spec 3 (List.length (items_of_category (items t) category_id)));
    [reflexivity|lia].
Qed.

Lemma fourth_item_refused_witness :
  insert_items coats (set_items small_catalog [shirts; trousers; jackets])
  = Refused category_full.
Proof.
  apply (fourth_item_refused coats 10%N); [reflexivity .. | simpl; lia].
Defined.

Lemma update_services_from_deactivation (p : service -> bool)
    (set : service -> service) (s : service) (i : item)
    (done todo : list service) (t : tables) :
  In s todo -> p s = true -> s_status s = true -> s_status (set s) = false ->
  In i (items t) -> i_service_id i = Some (s_id s) -> i_status i = true ->
  update_services_from p set done todo t = Refused service_has_active_items.
Proof.
  intros Hs Hp Hst Hst' Hi Hid Hact. revert done t Hi.
  induction todo as [|s0 rest IH]; intros done t Hi; [destruct Hs|].
  assert (Hex : existsb (fun i => sql_eq N.eqb (i_service_id i) (Some (s_id s))
                                  && i_status i) (items t) = true).
  { apply existsb_exists. exists i. split; [exact Hi|].
    rewrite Hid, Hact. simpl. rewrite N.eqb_refl. reflexivity. }
  simpl. destruct Hs as [->|Hs].
  - rewrite Hp, Hst, Hst'. simpl. unfold validate_service_deactivation.
    rewrite Hst, Hst', Hex. reflexivity.
  - destruct (p s0).
    + destruct (Bool.eqb (s_status s0) (s_status (set s0))); simpl.
      * apply IH; assumption.
      * unfold validate_service_deactivation.
        destruct (s_status s0 && negb (s_status (set s0)) && existsb _ (items t));
          simpl; [reflexivity|]. apply IH; assumption.
    + apply IH; assumption.
Qed.

Lemma update_categories_from_deactivation (p : category -> bool)
    (set : category -> category) (c : category) (i : item)
    (done todo : list category) (t : tables) :
  In c todo -> p c = true -> c_status c = true -> c_status (set c) = false ->
  In i (items t) -> i_category_id i = Some (c_id c) -> i_status i = true ->
  update_categories_from p set done todo t = Refused category_has_active_items.
Proof.
  intros Hc Hp Hst Hst' Hi Hid Hact. revert done t Hi.
  induction todo as [|c0 rest IH]; intros done t Hi; [destruct Hc|].
  assert (Hex : existsb (fun i => sql_eq N.eqb (i_category_id i) (Some (c_id c))
                                  && i_status i) (items t) = true).
  { apply existsb_exists. exists i. split; [exact Hi|].
    rewrite Hid, Hact. simpl. rewrite N.eqb_refl. reflexivity. }
  simpl. destruct Hc as [->|Hc].
  - rewrite Hp, Hst, Hst'. simpl. unfold validate_category_deactivation.
    rewrite Hst, Hst', Hex. reflexivity.
  - destruct (p c0).
    + destruct (Bool.eqb (c_status c0) (c_status (set c0))); simpl.
      * apply IH; assumption.
      * unfold validate_category_deactivation.
        destruct (c_status c0 && negb (c_status (set c0)) && existsb _ (items t));
          simpl; [reflexivity|]. apply IH; assumption.
    + apply IH; assumption.
Qed.

(** X27: a service with an active item cannot be deactivated: an [UPDATE]
    of [services] that sets the status of such a service, among the rows it
    visits, from true to false raises 'Cannot deactivate service with
    active items', whatever it does to the other rows. *)
Theorem service_with_active_items_stays_active (p : service -> bool)
    (set : service -> service) (s : service) (i : item) (t : tables) :
  In s (services t) -> p s = true ->
  s_status s = true -> s_status (set s) = false ->
  In i (items t) -> i_service_id i = Some (s_id s) -> i_status i = true ->
  update_services p set t = Refused service_has_active_items.
Proof.
  intros. unfold update_services.
  eapply update_services_from_deactivation; eassumption.
Qed.

Lemma service_with_active_items_stays_active_witness :
  update_services (fun _ => true) close_service small_catalog
  = Refused service_has_active_items.
Proof.
  apply (service_with_active_items_stays_active (fun _ => true) close_service
           {| s_id := 100%N; s_status := true |} shirts small_catalog);
    first [reflexivity | left; reflexivity].
Defined.

(** X28: a category with an active item cannot be deactivated: an [UPDATE]
    of [categories] that sets the status of such a category from true to
    false raises 'Cannot deactivate category with active items'. *)
Theorem category_with_active_items_stays_active (p : category -> bool)
    (set : category -> category) (c : category) (i : item) (t : tables) :
  In c (categories t) -> p c = true ->
  c_status c = true -> c_status (set c) = false ->
  In i (items t) -> i_category_id i = Some (c_id c) -> i_status i = true ->
  update_categories p set t = Refused category_has_active_items.
Proof.
  intros. unfold update_categories.
  eapply update_categories_from_deactivation; eassumption.
Qed.

Lemma category_with_active_items_stays_active_witness :
  update_categories (fun _ => true) close_category small_catalog
  = Refused category_has_active_items.
Proof.
  apply (category_with_active_items_stays_active (fun _ => true) close_category
           {| c_id := 10%N; c_service_id := Some 100%N; c_status := true |}
           shirts small_catalog);
    first [reflexivity | left; reflexivity].
Defined.

(** ** The default address: what the trigger keeps *)

Import addresses.

Lemma ensure_single_default_address_default (NEW a : user_address)
    (rows : list user_address) :
  a_is_default NEW = Some true ->
  In a (ensure_single_default_address NEW rows) ->
  a_is_default a = Some true ->
  In a rows
  /\ (sql_eq N.eqb (a_user_id a) (a_user_id NEW) = true -> a_id a = a_id NEW).
Proof.
  unfold ensure_single_default_address. intros -> H Hd. simpl in H.
  apply in_map_iff in H. destruct H as (a0 & E & Ha0).
  destruct (sql_eq N.eqb (a_user_id a0) (a_user_id NEW)) eqn:Eu; simpl in E.
  - destruct (N.eqb_spec (a_id a0) (a_id NEW)) as [Eid|Eid]; simpl in E; subst a.
    + split; [exact Ha0|]. intros _. exact Eid.
    + simpl in Hd. discriminate.
  - subst a. split; [exact Ha0|]. rewrite Eu. discriminate.
Qed.

(** X29: a user keeps one default address over insertions: when the
    default addresses of each user have one id, they do after an [INSERT]
    into [user_addresses], and a row inserted as default is then the
    default of its user: every default row of that user has its id. *)
Theorem insert_keeps_single_default (NEW : user_address)
    (rows : list user_address) :
  single_default rows ->
  single_default (insert_user_addresses NEW rows)
  /\ (a_is_default NEW = Some true ->
      forall a, In a (insert_user_addresses NEW rows) ->
                sql_eq N.eqb (a_user_id a) (a_user_id NEW) = true ->
                a_is_default a = Some true -> a_id a = a_id NEW).
Proof.
  intros Hinv. unfold insert_user_addresses.
  destruct (a_is_default NEW) as [[|]|] eqn:Ed; cbn [sql_eq Bool.eqb].
  - assert (Hnew : forall a,
               In a (ensure_single_default_address NEW rows ++ [NEW]) ->
               sql_eq N.eqb (a_user_id a) (a_user_id NEW) = true ->
               a_is_default a = Some true -> a_id a = a_id NEW).
    { intros a Ha Hu Hd. apply in_app_or in Ha. destruct Ha as [Ha|[<-|[]]];
        [|reflexivity].
      exact (proj2 (ensure_single_default_address_default NEW a rows Ed Ha Hd) Hu). }
    split; [|intros _; exact Hnew].
    intros a b Ha Hb Hu Hda Hdb.
    destruct (sql_eq N.eqb (a_user_id a) (a_user_id NEW)) eqn:Eu.
    + assert (Eu' : sql_eq N.eqb (a_user_id b) (a_user_id NEW) = true).
      { apply sql_eq_N_true in Hu. destruct Hu as (x & Hx & Hx').
        apply sql_eq_N_true in Eu. destruct Eu as (y & Hy & Hy').
        apply sql_eq_N_true. exists y. split; congruence. }
      rewrite (Hnew a Ha Eu Hda), (Hnew b Hb Eu' Hdb). reflexivity.
    + assert (Ha' : In a rows).
      { apply in_app_or in Ha. destruct Ha as [Ha|[<-|[]]].
        - exact (proj1 (ensure_single_default_address_default NEW a rows Ed Ha Hda)).
        - apply sql_eq_N_true in Hu. destruct Hu as (x & Hx & _).
          rewrite Hx in Eu. simpl in Eu. rewrite N.eqb_refl in Eu. discriminate. }
      assert (Hb' : In b rows).
      { apply in_app_or in Hb. destruct Hb as [Hb|[<-|[]]].
        - exact (proj1 (ensure_single_default_address_default NEW b rows Ed Hb Hdb)).
        - congruence. }
      exact (Hinv a b Ha' Hb' Hu Hda Hdb).
  - split; [|discriminate].
    intros a b Ha Hb Hu Hda Hdb.
    apply in_app_or in Ha. destruct Ha as [Ha|[<-|[]]]; [|congruence].
    apply in_app_or in Hb. destruct Hb as [Hb|[<-|[]]]; [|congruence].
    exact (Hinv a b Ha Hb Hu Hda Hdb).
  - split; [|discriminate].
    intros a b Ha Hb Hu Hda Hdb.
    apply in_app_or in Ha. destruct Ha as [Ha|[<-|[]]]; [|congruence].
    apply in_app_or in Hb. destruct Hb as [Hb|[<-|[]]]; [|congruence].
    exact (Hinv a b Ha Hb Hu Hda Hdb).
Qed.

Lemma insert_keeps_single_default_witness :
  single_default (insert_user_addresses office [home])
  /\ (a_is_default office = Some true ->
      forall a, In a (insert_user_addresses office [home]) ->
                sql_eq N.eqb (a_user_id a) (a_user_id office) = true ->
                a_is_default a = Some true -> a_id a = a_id office).
Proof.
  apply (insert_keeps_single_default office [home]).
  intros a b [<-|[]] [<-|[]] _ _ _. reflexivity.
Defined.
